(** * GitFirmwareUpdate: the update controller of src/GitFirmwareUpdate.cpp

    A shallow embedding of the class [GitFirmwareUpdate] (ESP32, Arduino
    core) and the properties of its version comparator, its manifest
    check, its installer loop and its progress accessor.

    Machine integers are [Z] with the conversions of the target written
    out: [int] is 32 bits two's complement, [size_t] is 32 bits unsigned,
    [uint8_t] is 8 bits unsigned.

    The HTTP client, its stream, the JSON reader, the flash updater, the
    two callbacks, the scheduler and the chip are an environment: a state
    of the world and an answer to every call.  The properties hold for
    every environment.  [abortUpdate()] is called from outside while the
    installer runs; the environment says during which calls.

    The retry loop and the copy loop take fuel, one unit per evaluation of
    their condition.  A run that outlasts its fuel ends as [Unfinished]
    with the session, the world and the log it has reached, so what is
    proved of a log is proved of the runs that never return as well.

    Left out: the logging macros (they do not touch the session), the
    construction and destruction of the client objects, and
    [http.getStreamPtr()]. *)

From Stdlib Require Import ZArith String Ascii List Bool Lia.
From stdpp Require Import base gmap strings list.

Local Open Scope string_scope.
Local Open Scope Z_scope.

(** ** Machine integers *)

Module MachInt.

Definition INT_MAX : Z := 2147483647.
Definition INT_MIN : Z := -2147483648.

(** Conversion to [int]: wrap-around on 32 bits, two's complement. *)
Definition to_int (x : Z) : Z := (x + 2147483648) mod 4294967296 - 2147483648.

(** Conversion to [size_t] (unsigned, 32 bits on the ESP32). *)
Definition to_size (x : Z) : Z := x mod 4294967296.

(** Conversion to [uint8_t]. *)
Definition to_u8 (x : Z) : Z := x mod 256.

(** What [strtol] does with a value out of the range of [long]. *)
Definition saturate (x : Z) : Z :=
  if x <? INT_MIN then INT_MIN else if INT_MAX <? x then INT_MAX else x.

(** Arduino's [constrain(x, lo, hi)]. *)
Definition constrain (x lo hi : Z) : Z :=
  if x <? lo then lo else if hi <? x then hi else x.

Definition in_int (x : Z) : Prop := INT_MIN <= x <= INT_MAX.

End MachInt.
Import MachInt.

(** ** C strings *)

Module CStr.

Definition char_code (c : ascii) : Z := Z.of_N (N_of_ascii c).

Definition isdigit (c : ascii) : bool :=
  (48 <=? char_code c) && (char_code c <=? 57).

(** [isspace] in the C locale: space, and the controls 9 to 13. *)
Definition isspace (c : ascii) : bool :=
  (char_code c =? 32) || ((9 <=? char_code c) && (char_code c <=? 13)).

Definition is_dot (c : ascii) : bool := char_code c =? 46.
Definition is_nul (c : ascii) : bool := char_code c =? 0.

(** [String::c_str()]: the C functions see the buffer up to its first
    NUL character. *)
Fixpoint c_str (s : string) : string :=
  match s with
  | EmptyString => EmptyString
  | String c r => if is_nul c then EmptyString else String c (c_str r)
  end.

(** [strchr(s, '.')], as the code uses it: the result is [None] for a
    null pointer, and otherwise the string that starts one character
    after the dot found (the code only ever reads [p + 1]). *)
Fixpoint strchr_dot (s : string) : option string :=
  match s with
  | EmptyString => None
  | String c r => if is_dot c then Some r else strchr_dot r
  end.

(** The digits read by [strtol] in base 10, most significant first. *)
Fixpoint digits (acc : Z) (s : string) : Z :=
  match s with
  | EmptyString => acc
  | String c r =>
      if isdigit c then digits (10 * acc + (char_code c - 48)) r else acc
  end.

Fixpoint skip_space (s : string) : string :=
  match s with
  | EmptyString => EmptyString
  | String c r => if isspace c then skip_space r else s
  end.

Definition signed_digits (s : string) : Z :=
  match s with
  | EmptyString => 0
  | String c r =>
      if char_code c =? 45 then - digits 0 r
      else if char_code c =? 43 then digits 0 r
      else digits 0 s
  end.

(** [atoi] of the C library of the target (newlib): [(int) strtol(s,
    NULL, 10)], that is white space, an optional sign, decimal digits,
    and saturation at the bounds of [long] (32 bits). *)
Definition atoi (s : string) : Z := saturate (signed_digits (skip_space s)).

(** [String::startsWith] and [strncmp(s, p, strlen p) == 0]. *)
Fixpoint startsWith (p s : string) : bool :=
  match p, s with
  | EmptyString, _ => true
  | String a p', String b s' => if Ascii.eqb a b then startsWith p' s' else false
  | String _ _, EmptyString => false
  end.

Definition isEmpty (s : string) : bool :=
  match s with EmptyString => true | _ => false end.

(** [String::indexOf('.') == -1]. *)
Definition has_dot (s : string) : bool :=
  match strchr_dot s with Some _ => true | None => false end.

(** The components of a string split on ['.']. *)
Fixpoint split_dot (s : string) : list string :=
  match s with
  | EmptyString => [EmptyString]
  | String c r =>
      if is_dot c then EmptyString :: split_dot r
      else match split_dot r with
           | x :: l => String c x :: l
           | [] => [String c EmptyString]
           end
  end.

End CStr.
Import CStr.

(** ** The version comparator (GitFirmwareUpdate.cpp, lines 220 to 244) *)

(** [parseVersion(s, v)]: the array [v] as a list of three [int]s.  The
    argument is the C string: the caller passes [a.c_str()]. *)
Definition parseVersion (s : string) : list Z :=
  if isEmpty s then [0; 0; 0]
  else
    let v0 := atoi s in
    match strchr_dot s with
    | None => [v0; 0; 0]
    | Some p1 =>
        let v1 := atoi p1 in
        match strchr_dot p1 with
        | None => [v0; v1; 0]
        | Some p2 => [v0; v1; atoi p2]
        end
    end.

(** The loop [for (i = 0; i < 3; i++)] of [cmpVersion], with [n] the
    number of iterations left. *)
Fixpoint cmp_loop (n : nat) (i : nat) (ma mb : list Z) : Z :=
  match n with
  | O => 0
  | S n' =>
      if negb (nth i ma 0 =? nth i mb 0)
      then to_int (nth i ma 0 - nth i mb 0)
      else cmp_loop n' (S i) ma mb
  end.

Definition cmpVersion (a b : string) : Z :=
  let ma := parseVersion (c_str a) in
  let mb := parseVersion (c_str b) in
  cmp_loop 3 0 ma mb.

(** The comparator as the specification words it: each string is split
    on ['.'], the first three components are read as integers, a missing
    component counts as 0. *)
Definition components_spec (s : string) : list Z :=
  let cs := split_dot (c_str s) in
  [atoi (nth 0 cs ""); atoi (nth 1 cs ""); atoi (nth 2 cs "")].

(** The order on triples, first unequal component decides. *)
Definition lex_lt (x y : list Z) : Prop :=
  nth 0 x 0 < nth 0 y 0 \/
  (nth 0 x 0 = nth 0 y 0 /\
   (nth 1 x 0 < nth 1 y 0 \/
    (nth 1 x 0 = nth 1 y 0 /\ nth 2 x 0 < nth 2 y 0))).

(** A string without a minus sign. *)
Fixpoint no_minus (s : string) : bool :=
  match s with
  | EmptyString => true
  | String c r => negb (char_code c =? 45) && no_minus r
  end.

(** ** The session object (GitFirmwareUpdate.h) *)

Inductive UpdateError : Set :=
| NO_ERROR | NO_UPDATE_AVAILABLE | NETWORK_ERROR | HTTP_ERROR
| JSON_PARSE_ERROR | INVALID_VERSION | DOWNLOAD_FAILED | FLASH_FAILED
| INVALID_URL | UPDATE_SIZE_ERROR | UPDATE_ABORTED.

(** The private fields of the class.  The two callbacks are function
    pointers: the field says whether the pointer is non-null, the call
    itself is an event of the environment. *)
Record Session : Type := mkSession {
  _currentVersion : string;
  _githubUrl : string;
  _remoteVersion : string;
  _releaseNotes : string;
  _firmwareUrl : string;
  _lastError : UpdateError;
  _lastErrorDetail : string;
  _progressCallback : bool;
  _serverHandleCallback : bool;
  _timeoutMs : Z;
  _retryCount : Z;
  _validateCert : bool;
  _abortFlag : bool;
  _isUpdating : bool;
  _currentBytesRead : Z;
  _totalBytes : Z;
  _currentPercent : Z
}.

Definition set_remoteVersion (v : string) (s : Session) : Session :=
  mkSession (_currentVersion s) (_githubUrl s) v (_releaseNotes s)
    (_firmwareUrl s) (_lastError s) (_lastErrorDetail s)
    (_progressCallback s) (_serverHandleCallback s) (_timeoutMs s)
    (_retryCount s) (_validateCert s) (_abortFlag s) (_isUpdating s)
    (_currentBytesRead s) (_totalBytes s) (_currentPercent s).
Definition set_releaseNotes (v : string) (s : Session) : Session :=
  mkSession (_currentVersion s) (_githubUrl s) (_remoteVersion s) v
    (_firmwareUrl s) (_lastError s) (_lastErrorDetail s)
    (_progressCallback s) (_serverHandleCallback s) (_timeoutMs s)
    (_retryCount s) (_validateCert s) (_abortFlag s) (_isUpdating s)
    (_currentBytesRead s) (_totalBytes s) (_currentPercent s).
Definition set_firmwareUrl (v : string) (s : Session) : Session :=
  mkSession (_currentVersion s) (_githubUrl s) (_remoteVersion s)
    (_releaseNotes s) v (_lastError s) (_lastErrorDetail s)
    (_progressCallback s) (_serverHandleCallback s) (_timeoutMs s)
    (_retryCount s) (_validateCert s) (_abortFlag s) (_isUpdating s)
    (_currentBytesRead s) (_totalBytes s) (_currentPercent s).
Definition set_lastError (v : UpdateError) (s : Session) : Session :=
  mkSession (_currentVersion s) (_githubUrl s) (_remoteVersion s)
    (_releaseNotes s) (_firmwareUrl s) v (_lastErrorDetail s)
    (_progressCallback s) (_serverHandleCallback s) (_timeoutMs s)
    (_retryCount s) (_validateCert s) (_abortFlag s) (_isUpdating s)
    (_currentBytesRead s) (_totalBytes s) (_currentPercent s).
Definition set_lastErrorDetail (v : string) (s : Session) : Session :=
  mkSession (_currentVersion s) (_githubUrl s) (_remoteVersion s)
    (_releaseNotes s) (_firmwareUrl s) (_lastError s) v
    (_progressCallback s) (_serverHandleCallback s) (_timeoutMs s)
    (_retryCount s) (_validateCert s) (_abortFlag s) (_isUpdating s)
    (_currentBytesRead s) (_totalBytes s) (_currentPercent s).
Definition set_progressCallback (v : bool) (s : Session) : Session :=
  mkSession (_currentVersion s) (_githubUrl s) (_remoteVersion s)
    (_releaseNotes s) (_firmwareUrl s) (_lastError s) (_lastErrorDetail s) v
    (_serverHandleCallback s) (_timeoutMs s) (_retryCount s)
    (_validateCert s) (_abortFlag s) (_isUpdating s) (_currentBytesRead s)
    (_totalBytes s) (_currentPercent s).
Definition set_serverHandleCallback (v : bool) (s : Session) : Session :=
  mkSession (_currentVersion s) (_githubUrl s) (_remoteVersion s)
    (_releaseNotes s) (_firmwareUrl s) (_lastError s) (_lastErrorDetail s)
    (_progressCallback s) v (_timeoutMs s) (_retryCount s) (_validateCert s)
    (_abortFlag s) (_isUpdating s) (_currentBytesRead s) (_totalBytes s)
    (_currentPercent s).
Definition set_timeoutMs (v : Z) (s : Session) : Session :=
  mkSession (_currentVersion s) (_githubUrl s) (_remoteVersion s)
    (_releaseNotes s) (_firmwareUrl s) (_lastError s) (_lastErrorDetail s)
    (_progressCallback s) (_serverHandleCallback s) v (_retryCount s)
    (_validateCert s) (_abortFlag s) (_isUpdating s) (_currentBytesRead s)
    (_totalBytes s) (_currentPercent s).
Definition set_retryCount (v : Z) (s : Session) : Session :=
  mkSession (_currentVersion s) (_githubUrl s) (_remoteVersion s)
    (_releaseNotes s) (_firmwareUrl s) (_lastError s) (_lastErrorDetail s)
    (_progressCallback s) (_serverHandleCallback s) (_timeoutMs s) v
    (_validateCert s) (_abortFlag s) (_isUpdating s) (_currentBytesRead s)
    (_totalBytes s) (_currentPercent s).
Definition set_validateCert (v : bool) (s : Session) : Session :=
  mkSession (_currentVersion s) (_githubUrl s) (_remoteVersion s)
    (_releaseNotes s) (_firmwareUrl s) (_lastError s) (_lastErrorDetail s)
    (_progressCallback s) (_serverHandleCallback s) (_timeoutMs s)
    (_retryCount s) v (_abortFlag s) (_isUpdating s) (_currentBytesRead s)
    (_totalBytes s) (_currentPercent s).
Definition set_abortFlag (v : bool) (s : Session) : Session :=
  mkSession (_currentVersion s) (_githubUrl s) (_remoteVersion s)
    (_releaseNotes s) (_firmwareUrl s) (_lastError s) (_lastErrorDetail s)
    (_progressCallback s) (_serverHandleCallback s) (_timeoutMs s)
    (_retryCount s) (_validateCert s) v (_isUpdating s)
    (_currentBytesRead s) (_totalBytes s) (_currentPercent s).
Definition set_isUpdating (v : bool) (s : Session) : Session :=
  mkSession (_currentVersion s) (_githubUrl s) (_remoteVersion s)
    (_releaseNotes s) (_firmwareUrl s) (_lastError s) (_lastErrorDetail s)
    (_progressCallback s) (_serverHandleCallback s) (_timeoutMs s)
    (_retryCount s) (_validateCert s) (_abortFlag s) v (_currentBytesRead s)
    (_totalBytes s) (_currentPercent s).
Definition set_currentBytesRead (v : Z) (s : Session) : Session :=
  mkSession (_currentVersion s) (_githubUrl s) (_remoteVersion s)
    (_releaseNotes s) (_firmwareUrl s) (_lastError s) (_lastErrorDetail s)
    (_progressCallback s) (_serverHandleCallback s) (_timeoutMs s)
    (_retryCount s) (_validateCert s) (_abortFlag s) (_isUpdating s) v
    (_totalBytes s) (_currentPercent s).
Definition set_totalBytes (v : Z) (s : Session) : Session :=
  mkSession (_currentVersion s) (_githubUrl s) (_remoteVersion s)
    (_releaseNotes s) (_firmwareUrl s) (_lastError s) (_lastErrorDetail s)
    (_progressCallback s) (_serverHandleCallback s) (_timeoutMs s)
    (_retryCount s) (_validateCert s) (_abortFlag s) (_isUpdating s)
    (_currentBytesRead s) v (_currentPercent s).
Definition set_currentPercent (v : Z) (s : Session) : Session :=
  mkSession (_currentVersion s) (_githubUrl s) (_remoteVersion s)
    (_releaseNotes s) (_firmwareUrl s) (_lastError s) (_lastErrorDetail s)
    (_progressCallback s) (_serverHandleCallback s) (_timeoutMs s)
    (_retryCount s) (_validateCert s) (_abortFlag s) (_isUpdating s)
    (_currentBytesRead s) (_totalBytes s) v.


(** The constructor. *)
Definition GitFirmwareUpdate (currentVersion githubUrl : string) : Session :=
  mkSession currentVersion githubUrl "" "" "" NO_ERROR ""
    false false 30000 0 false false false 0 0 0.

(** The setters and the inline members of the header. *)
Definition setProgressCallback (nonnull : bool) : Session -> Session :=
  set_progressCallback nonnull.
Definition setServerHandleCallback (nonnull : bool) : Session -> Session :=
  set_serverHandleCallback nonnull.
Definition setTimeout (timeoutMs : Z) : Session -> Session :=
  set_timeoutMs (to_size timeoutMs).
Definition setRetryCount (count : Z) : Session -> Session :=
  set_retryCount (to_u8 count).
Definition setCertificateValidation (validate : bool) : Session -> Session :=
  set_validateCert validate.
Definition abortUpdate : Session -> Session := set_abortFlag true.
Definition isUpdating : Session -> bool := _isUpdating.
Definition getLastError : Session -> UpdateError := _lastError.

(** [setError(error, message)]: the detail buffer has 64 bytes, [strncpy]
    keeps at most 63 characters of the message. *)
Definition setError (error : UpdateError) (message : option string)
    (s : Session) : Session :=
  match message with
  | Some msg => set_lastErrorDetail (substring 0 63 (c_str msg)) (set_lastError error s)
  | None => set_lastErrorDetail "" (set_lastError error s)
  end.

(** The three progress counters, as [getProgress] hands them out. *)
Definition snapshot (s : Session) : Z * Z * Z :=
  (_currentBytesRead s, _totalBytes s, _currentPercent s).

(** The assignments that every failure path of the installer repeats:
    [_isUpdating = false; _currentBytesRead = 0; _totalBytes = 0;
    _currentPercent = 0]. *)
Definition clear_progress (s : Session) : Session :=
  set_currentPercent 0 (set_totalBytes 0 (set_currentBytesRead 0
    (set_isUpdating false s))).

(** [getProgress(bytesRead, totalBytes, percent)] (lines 545 to 555).  The
    three reference parameters are the caller's variables: their values
    before the call come in as [out], their values after it come back
    with the result. *)
Definition getProgress (s : Session) (out : Z * Z * Z) : bool * (Z * Z * Z) :=
  if negb (_isUpdating s) && (_currentPercent s =? 0) && (_currentBytesRead s =? 0)
  then (false, out)
  else (_isUpdating s || ((100 <=? _currentPercent s) && (0 <? _totalBytes s)),
        (_currentBytesRead s, _totalBytes s, _currentPercent s)).

(** "Live", in the words of the specification: an update is in progress,
    or a download of known size has completed at 100 percent. *)
Definition live (s : Session) : Prop :=
  _isUpdating s = true \/ (100 <= _currentPercent s /\ 0 < _totalBytes s).

(** ** The collaborators *)

(** The calls the controller makes to code outside the class, each with
    the type of what comes back: the HTTP client and its stream, the JSON
    reader, the flash updater, the two callbacks, the scheduler and the
    chip.  The bytes that travel from the stream to the updater through
    the local buffer stay in the world; the calls carry the counts. *)
Inductive Ext : Type -> Type :=
| HttpSetTimeout (ms : Z) : Ext unit
| HttpSetFollowRedirects : Ext unit
| HttpSetReuse (reuse : bool) : Ext unit
| SecureSetInsecure : Ext unit
| HttpBegin (secure : bool) (url : string) : Ext bool
| HttpGET : Ext Z
| HttpGetSize : Ext Z
| HttpConnected : Ext bool
| HttpEnd : Ext unit
| DeserializeJson : Ext (option (gmap string string))
    (* [deserializeJson(doc, *stream)]: [None] for an error, else the
       string members of the document *)
| StreamAvailable : Ext Z
| StreamReadBytes (toRead : Z) : Ext Z
| UpdateIsRunning : Ext bool
| UpdateBegin (size : Z) : Ext bool
| UpdateWrite (len : Z) : Ext Z
| UpdateEnd : Ext bool
| UpdateIsFinished : Ext bool
| UpdateAbort : Ext unit
| ProgressCallback (percent bytesRead totalBytes : Z) : Ext unit
| ServerHandleCallback : Ext unit
| Delay (ms : Z) : Ext unit
| Yield : Ext unit
| EspRestart : Ext unit.

(** The world outside: how it answers each call, and whether
    [abortUpdate()] was invoked on the session while the call ran (from a
    callback or from another task). *)
Record Env (W : Type) : Type := mkEnv {
  handle : forall T : Type, Ext T -> W -> T * W;
  abort_called : W -> bool
}.
Arguments handle {W} _ {T} _ _.
Arguments abort_called {W} _ _.

(** What a run leaves behind: the calls made with their answers, in order,
    and a mark for each time the test of line 472 found the abort flag
    set (the flag is a field, reading it is no call). *)
Inductive Entry : Type :=
| Call (T : Type) (e : Ext T) (r : T)
| AbortObserved.
Arguments Call {T} e r.

Definition HTTP_CODE_OK : Z := 200.
Definition UPDATE_SIZE_UNKNOWN : Z := 4294967295.
Definition MAX_BEGIN_RETRIES : nat := 5.
Definition BUF_SIZE : Z := 1024.

(** ** The monad of the controller *)

(** A computation reads and writes the session and the world, appends to
    the log, and either returns or is still running when the fuel of a
    loop is spent. *)
Inductive Res (W A : Type) : Type :=
| Done (a : A) (s : Session) (w : W) (log : list Entry)
| Unfinished (s : Session) (w : W) (log : list Entry).
Arguments Done {W A} a s w log.
Arguments Unfinished {W A} s w log.

Definition M (W A : Type) : Type := Session -> W -> Res W A.

Definition ret {W A} (a : A) : M W A := fun s w => Done a s w [].

Definition bind {W A B} (f : M W A) (g : A -> M W B) : M W B :=
  fun s w =>
    match f s w with
    | Done a s1 w1 l1 =>
        match g a s1 w1 with
        | Done b s2 w2 l2 => Done b s2 w2 (l1 ++ l2)
        | Unfinished s2 w2 l2 => Unfinished s2 w2 (l1 ++ l2)
        end
    | Unfinished s1 w1 l1 => Unfinished s1 w1 l1
    end.

Definition gets {W A} (f : Session -> A) : M W A := fun s w => Done (f s) s w [].
Definition modify {W} (f : Session -> Session) : M W unit :=
  fun s w => Done tt (f s) w [].
Definition note {W} (e : Entry) : M W unit := fun s w => Done tt s w [e].
Definition out_of_fuel {W A} : M W A := fun s w => Unfinished s w [].
Definition when {W} (b : bool) (f : M W unit) : M W unit :=
  if b then f else ret tt.

Definition res_log {W A} (r : Res W A) : list Entry :=
  match r with Done _ _ _ l => l | Unfinished _ _ l => l end.

Declare Scope ctl_scope.
Delimit Scope ctl_scope with ctl.
Notation "x <- f ;; g" := (bind f (fun x => g))
  (at level 100, f at next level, right associativity) : ctl_scope.
Notation "f ;; g" := (bind f (fun _ => g))
  (at level 100, right associativity) : ctl_scope.
Local Open Scope ctl_scope.

Section Controller.

Context {W : Type} (E : Env W).

(** The build flag of the header: an HTTP-only build unless
    [GIT_FIRMWARE_USE_HTTPS] is defined. *)
Variable GIT_FIRMWARE_HTTP_ONLY : bool.

(** A call to a collaborator.  On return the abort flag is set if it
    was, or if [abortUpdate()] ran meanwhile. *)
Definition call {T} (e : Ext T) : M W T :=
  fun s w =>
    let r := fst (handle E e w) in
    let w' := snd (handle E e w) in
    Done r (set_abortFlag (_abortFlag s || abort_called E w') s) w' [Call e r].

Definition fail (error : UpdateError) (msg : string) : M W unit :=
  modify (setError error (Some msg)).

(** [reportProgress(bytesRead, totalBytes)] (lines 557 to 575). *)
Definition reportProgress (bytesRead totalBytes : Z) : M W unit :=
  let percent :=
    if 0 <? totalBytes
    then constrain (to_int (to_size (bytesRead * 100) / totalBytes)) 0 100
    else 0 in
  cb <- gets _progressCallback ;;
  when cb (call (ProgressCallback percent bytesRead totalBytes)).

(** *** The checker (lines 30 to 151) *)

(** [doc[key] | ""] assigned to a [String]: the member when it is there,
    the empty string when it is not, up to the first NUL. *)
Definition json_field (doc : gmap string string) (key : string) : string :=
  c_str (default "" (doc !! key)).

Definition checkForUpdate : M W bool :=
  modify (set_lastError NO_ERROR) ;;
  modify (set_lastErrorDetail "") ;;
  modify (set_abortFlag false) ;;
  modify (set_remoteVersion "") ;;
  modify (set_releaseNotes "") ;;
  modify (set_firmwareUrl "") ;;
  githubUrl <- gets _githubUrl ;;
  if GIT_FIRMWARE_HTTP_ONLY && startsWith "https://" githubUrl then
    fail INVALID_URL "HTTPS not supported in HTTP-only build" ;; ret false
  else
    let isHttps := startsWith "https://" githubUrl in
    timeoutMs <- gets _timeoutMs ;;
    call (HttpSetTimeout timeoutMs) ;;
    call (HttpSetReuse false) ;;
    beginOk <-
      (if isHttps then
         validateCert <- gets _validateCert ;;
         when (negb validateCert) (call SecureSetInsecure) ;;
         call (HttpBegin true githubUrl)
       else call (HttpBegin false githubUrl)) ;;
    if negb beginOk then
      fail NETWORK_ERROR "Failed to begin HTTP connection" ;; ret false
    else
      httpCode <- call HttpGET ;;
      if negb (to_int httpCode =? HTTP_CODE_OK) then
        fail HTTP_ERROR "HTTP request failed" ;;
        call HttpEnd ;;
        ret false
      else
        parsed <- call DeserializeJson ;;
        call HttpEnd ;;
        match parsed with
        | None => fail JSON_PARSE_ERROR "Failed to parse JSON" ;; ret false
        | Some doc =>
            modify (set_remoteVersion (json_field doc "version")) ;;
            modify (set_firmwareUrl (json_field doc "url")) ;;
            modify (set_releaseNotes (json_field doc "notes")) ;;
            remoteVersion <- gets _remoteVersion ;;
            firmwareUrl <- gets _firmwareUrl ;;
            if isEmpty remoteVersion || isEmpty firmwareUrl then
              fail INVALID_VERSION "Invalid latest.json: missing version or URL" ;;
              ret false
            else if negb (has_dot remoteVersion) then
              fail INVALID_VERSION "Invalid version format" ;; ret false
            else
              currentVersion <- gets _currentVersion ;;
              let cmp := cmpVersion remoteVersion (c_str currentVersion) in
              if cmp <=? 0 then
                modify (set_lastError NO_UPDATE_AVAILABLE) ;; ret false
              else ret true
        end.

(** *** The installer (lines 246 to 543) *)

(** How the chunked copy loop (lines 398 to 463) is left: through its
    condition or a [break], with the bytes read so far, or through the
    [return false] of the short write. *)
Inductive CopyExit : Type :=
| CopyEnded (totalRead : Z)
| CopyFatal.

(** How one pass through the body of the retry loop ends: [continue]
    after [retryAttempt++], [success = true], or [return false]. *)
Inductive AttemptExit : Type :=
| Retry
| Succeeded
| Fatal.

(** How the retry loop is left: by a [return] inside it, or through its
    condition with the value of [success]. *)
Inductive LoopExit : Type :=
| Returned (b : bool)
| LoopEnded (success : bool).

(** The sub-loop around [Update.begin] (lines 364 to 376); [n] is
    [MAX_BEGIN_RETRIES - beginRetries]. *)
Fixpoint begin_loop (n : nat) (beginRetries : Z) (size : Z) : M W bool :=
  match n with
  | O => ret false
  | S n' =>
      when (0 <? beginRetries) (call (Delay 200)) ;;
      updateStarted <- call (UpdateBegin size) ;;
      if updateStarted then ret true
      else begin_loop n' (beginRetries + 1) size
  end.

(** The short-write exit (lines 415 to 427). *)
Definition short_write_exit : M W CopyExit :=
  fail FLASH_FAILED "Update.write() failed" ;;
  call UpdateAbort ;;
  call HttpEnd ;;
  modify clear_progress ;;
  ret CopyFatal.

(** The copy loop; one unit of fuel per evaluation of its condition. *)
Fixpoint copy_loop (fuel : nat) (hasContentLength : bool)
    (contentLength : Z) (totalRead : Z) : M W CopyExit :=
  match fuel with
  | O => out_of_fuel
  | S fuel' =>
      connected <- call HttpConnected ;;
      abortFlag <- gets _abortFlag ;;
      if connected && negb abortFlag then
        available <- call StreamAvailable ;;
        if to_int available =? 0 then
          connected' <- call HttpConnected ;;
          if negb connected' then ret (CopyEnded totalRead)
          else
            call (Delay 1) ;;
            copy_loop fuel' hasContentLength contentLength totalRead
        else
          available' <- call StreamAvailable ;;
          let avail := to_size (to_int available') in
          let toRead := if BUF_SIZE <? avail then BUF_SIZE else avail in
          got <- call (StreamReadBytes toRead) ;;
          let c := to_int got in
          if c <=? 0 then ret (CopyEnded totalRead)
          else
            written <- call (UpdateWrite c) ;;
            if negb (to_size written =? to_size c) then short_write_exit
            else
              let totalRead' := to_size (totalRead + c) in
              let percent :=
                if hasContentLength && (0 <? contentLength)
                then constrain
                       (to_int (to_size (totalRead' * 100) / to_size contentLength))
                       0 100
                else 0 in
              modify (set_currentBytesRead totalRead') ;;
              when hasContentLength (modify (set_currentPercent percent)) ;;
              reportProgress totalRead'
                (if hasContentLength then to_size contentLength else 0) ;;
              serverHandle <- gets _serverHandleCallback ;;
              when serverHandle (call ServerHandleCallback) ;;
              when (totalRead' mod 10240 =? 0) (call Yield) ;;
              if hasContentLength && (to_size contentLength <=? totalRead')
              then ret (CopyEnded totalRead')
              else copy_loop fuel' hasContentLength contentLength totalRead'
      else ret (CopyEnded totalRead)
  end.

(** Lines 465 to 524: after the copy loop. *)
Definition conclude (hasContentLength : bool) (contentLength : Z)
    (totalRead : Z) : M W AttemptExit :=
  modify (set_currentPercent 100) ;;
  modify (set_currentBytesRead totalRead) ;;
  reportProgress totalRead
    (if hasContentLength then to_size contentLength else 0) ;;
  abortFlag <- gets _abortFlag ;;
  if abortFlag then
    note AbortObserved ;;
    fail UPDATE_ABORTED "Update aborted by user" ;;
    call UpdateAbort ;;
    call HttpEnd ;;
    modify clear_progress ;;
    ret Fatal
  else if hasContentLength && negb (totalRead =? to_size contentLength) then
    fail DOWNLOAD_FAILED "Incomplete download" ;;
    call UpdateAbort ;;
    call HttpEnd ;;
    modify clear_progress ;;
    ret Retry
  else
    ended <- call UpdateEnd ;;
    if negb ended then
      fail FLASH_FAILED "Update.end() failed" ;;
      call UpdateAbort ;;
      call HttpEnd ;;
      modify clear_progress ;;
      ret Retry
    else
      call HttpEnd ;;
      finished <- call UpdateIsFinished ;;
      if negb finished then
        fail FLASH_FAILED "Update not finished" ;; ret Retry
      else ret Succeeded.

(** Lines 340 to 524: from the content length on. *)
Definition download (k : nat) : M W AttemptExit :=
  size <- call HttpGetSize ;;
  let contentLength := to_int size in
  let hasContentLength := 0 <? contentLength in
  modify (set_totalBytes (if hasContentLength then to_size contentLength else 0)) ;;
  modify (set_currentBytesRead 0) ;;
  modify (set_currentPercent 0) ;;
  updateStarted <-
    begin_loop MAX_BEGIN_RETRIES 0
      (if hasContentLength then to_size contentLength
       else to_size (to_int UPDATE_SIZE_UNKNOWN)) ;;
  if negb updateStarted then
    fail UPDATE_SIZE_ERROR "Update.begin() failed after retries" ;;
    call HttpEnd ;;
    ret Retry
  else
    reportProgress 0 (if hasContentLength then to_size contentLength else 0) ;;
    copied <- copy_loop k hasContentLength contentLength 0 ;;
    match copied with
    | CopyFatal => ret Fatal
    | CopyEnded totalRead => conclude hasContentLength contentLength totalRead
    end.

(** One pass through the body of the retry loop, after the back-off
    delay (lines 276 to 524); [k] is the fuel of its copy loop. *)
Definition attempt (k : nat) (url : string) : M W AttemptExit :=
  let isHttps := startsWith "https://" url in
  timeoutMs <- gets _timeoutMs ;;
  call (HttpSetTimeout timeoutMs) ;;
  call HttpSetFollowRedirects ;;
  call (HttpSetReuse false) ;;
  if isHttps && GIT_FIRMWARE_HTTP_ONLY then
    fail INVALID_URL "HTTPS not supported in HTTP-only build" ;; ret Retry
  else
    beginOk <-
      (if isHttps then
         validateCert <- gets _validateCert ;;
         when (negb validateCert) (call SecureSetInsecure) ;;
         call (HttpBegin true url)
       else call (HttpBegin false url)) ;;
    if negb beginOk then
      fail NETWORK_ERROR "Failed to begin HTTP connection" ;; ret Retry
    else
      httpCode <- call HttpGET ;;
      if negb (to_int httpCode =? HTTP_CODE_OK) then
        fail HTTP_ERROR "HTTP request failed" ;;
        call HttpEnd ;;
        running <- call UpdateIsRunning ;;
        when running (call UpdateAbort) ;;
        ret Retry
      else download k.

(** The retry loop (lines 267 to 525): [retryAttempt] is a [uint8_t],
    as [_retryCount] is; [success] is false whenever the condition is
    evaluated, and setting it leaves the loop.  One unit of fuel per
    evaluation of the condition. *)
Fixpoint retry_loop (k fuel : nat) (url : string) (retryAttempt : Z)
    : M W LoopExit :=
  match fuel with
  | O => out_of_fuel
  | S fuel' =>
      retryCount <- gets _retryCount ;;
      abortFlag <- gets _abortFlag ;;
      if (retryAttempt <=? to_u8 retryCount) && negb abortFlag then
        when (0 <? retryAttempt) (call (Delay 1000)) ;;
        outcome <- attempt k url ;;
        match outcome with
        | Fatal => ret (Returned false)
        | Succeeded => ret (LoopEnded true)
        | Retry => retry_loop k fuel' url (to_u8 (retryAttempt + 1))
        end
      else ret (LoopEnded false)
  end.

(** The URLs that pass the checks of lines 247 to 258. *)
Definition url_accepted (url : string) : bool :=
  negb (isEmpty url) &&
  negb (GIT_FIRMWARE_HTTP_ONLY && startsWith "https://" url).

Definition performHttpFirmwareUpdate (fuel : nat) (url : string) : M W bool :=
  if isEmpty url then
    fail INVALID_URL "URL is empty" ;; ret false
  else if GIT_FIRMWARE_HTTP_ONLY && startsWith "https://" url then
    fail INVALID_URL "HTTPS not supported in HTTP-only build" ;;
    modify (set_isUpdating false) ;;
    ret false
  else
    modify (set_isUpdating true) ;;
    modify (set_abortFlag false) ;;
    modify (set_lastError NO_ERROR) ;;
    modify (set_lastErrorDetail "") ;;
    exit <- retry_loop fuel fuel url 0 ;;
    match exit with
    | Returned b => ret b
    | LoopEnded false => modify clear_progress ;; ret false
    | LoopEnded true =>
        call (Delay 1000) ;;
        call EspRestart ;;
        ret true
    end.

(** [performUpdate] and [downloadAndInstall] (lines 153 to 168). *)
Definition performUpdate (fuel : nat) : M W bool :=
  newer <- checkForUpdate ;;
  if negb newer then ret false
  else
    firmwareUrl <- gets _firmwareUrl ;;
    performHttpFirmwareUpdate fuel firmwareUrl.

Definition downloadAndInstall (fuel : nat) (url : string) : M W bool :=
  if isEmpty url then fail INVALID_URL "URL is empty" ;; ret false
  else performHttpFirmwareUpdate fuel url.

End Controller.

(** ** Properties of logs *)

(** A flash write that returned a count other than the count handed in. *)
Definition short_write (e : Entry) : Prop :=
  match e with
  | Call x r =>
      match x in Ext T return T -> Prop with
      | UpdateWrite len => fun written => to_size written <> to_size len
      | _ => fun _ => False
      end r
  | AbortObserved => False
  end.

Definition abort_seen (e : Entry) : Prop := e = AbortObserved.

(** An entry after which the operation is over. *)
Definition final_entry (e : Entry) : Prop := short_write e \/ abort_seen e.

Definition is_begin (e : Entry) : bool :=
  match e with
  | Call x _ => match x with HttpBegin _ _ => true | _ => false end
  | AbortObserved => false
  end.

(** The attempts of a run: each pass through the retry loop that gets to
    opening a connection calls [http.begin] once. *)
Definition attempts (l : list Entry) : nat := List.length (List.filter is_begin l).

(** The session after a terminal failure: not updating, counters at 0. *)
Definition cleared (s : Session) : Prop :=
  _isUpdating s = false /\ _currentBytesRead s = 0 /\
  _totalBytes s = 0 /\ _currentPercent s = 0.

(** The prefix of a string before its first dot. *)
Fixpoint cut_dot (s : string) : string :=
  match s with
  | EmptyString => EmptyString
  | String c r => if is_dot c then EmptyString else String c (cut_dot r)
  end.

(** The idle state in which [getProgress] leaves its arguments alone. *)
Definition idle_zero (s : Session) : bool :=
  negb (_isUpdating s) && (_currentPercent s =? 0) && (_currentBytesRead s =? 0).

(** A manifest came back from the JSON reader. *)
Definition parsed_manifest (doc : gmap string string) (e : Entry) : Prop :=
  match e with
  | Call x r =>
      match x in Ext T return T -> Prop with
      | DeserializeJson => fun parsed => parsed = Some doc
      | _ => fun _ => False
      end r
  | AbortObserved => False
  end.


(** ** A scripted world

    A server and a flash updater that give the same answers all along;
    the state of the world is the number of calls made so far, and
    [abortUpdate()] is invoked once that number reaches [sim_abort_at]
    (never, when it is [None]). *)
Record Sim : Type := mkSim {
  sim_begin : bool;
  sim_status : Z;
  sim_manifest : option (gmap string string);
  sim_size : Z;
  sim_available : Z;
  sim_written : Z -> Z;
  sim_update_begin : bool;
  sim_update_end : bool;
  sim_finished : bool;
  sim_abort_at : option nat
}.

Definition sim_answer (c : Sim) (T : Type) (e : Ext T) : T :=
  match e in Ext T return T with
  | HttpSetTimeout _ => tt
  | HttpSetFollowRedirects => tt
  | HttpSetReuse _ => tt
  | SecureSetInsecure => tt
  | HttpBegin _ _ => sim_begin c
  | HttpGET => sim_status c
  | HttpGetSize => sim_size c
  | HttpConnected => true
  | HttpEnd => tt
  | DeserializeJson => sim_manifest c
  | StreamAvailable => sim_available c
  | StreamReadBytes toRead => toRead
  | UpdateIsRunning => false
  | UpdateBegin _ => sim_update_begin c
  | UpdateWrite len => sim_written c len
  | UpdateEnd => sim_update_end c
  | UpdateIsFinished => sim_finished c
  | UpdateAbort => tt
  | ProgressCallback _ _ _ => tt
  | ServerHandleCallback => tt
  | Delay _ => tt
  | Yield => tt
  | EspRestart => tt
  end.

Definition sim (c : Sim) : Env nat :=
  mkEnv nat
    (fun T e n => (sim_answer c T e, S n))
    (fun n => match sim_abort_at c with
              | Some k => Nat.leb k n
              | None => false
              end).

(** A server that serves the manifest and a firmware image of 2000
    bytes, and an updater that takes every write. *)
Definition manifest_101 : gmap string string :=
  <["version" := "1.0.1"]> (<["url" := "http://x/fw.bin"]> ∅).

Definition good_server : Sim :=
  mkSim true 200 (Some manifest_101) 2000 1000 (fun len => len)
    true true true None.

(** The same, with an updater that takes one byte less than it is
    given. *)
Definition short_flash : Sim :=
  mkSim true 200 (Some manifest_101) 2000 1000 (fun len => len - 1)
    true true true None.

(** The same as [good_server], with [abortUpdate()] invoked while the
    twelfth call runs. *)
Definition aborting_user : Sim :=
  mkSim true 200 (Some manifest_101) 2000 1000 (fun len => len)
    true true true (Some 12%nat).



(** A server that cannot be reached. *)
Definition dead_server : Sim :=
  mkSim false 0 None 0 0 (fun len => len) false false false None.

Definition a_session : Session :=
  GitFirmwareUpdate "1.0.0" "http://x/latest.json".

(** A log without a short write and without an abort observed. *)
Definition quiet (l : list Entry) : Prop := Forall (fun e => ~ final_entry e) l.

(** The end of an operation that stops on the spot: the entry [x] that
    ends it is followed by the abort of the flash transaction and the
    release of the connection, and by nothing else. *)
Definition stops_after (x : Entry) (l : list Entry) : Prop :=
  exists pre,
    l = (pre ++ [x; Call UpdateAbort tt; Call HttpEnd tt])%list /\ quiet pre.

(** What holds when the installer gives up for good. *)
Definition fatal_post (s : Session) (l : list Entry) : Prop :=
  cleared s /\
  exists x, stops_after x l /\
    ((short_write x /\ _lastError s = FLASH_FAILED) \/
     (x = AbortObserved /\ _lastError s = UPDATE_ABORTED)).

(** What a piece of the installer leaves alone: the retry count stays,
    and the log has at most [n] attempts. *)
Definition frame (s s' : Session) (n : nat) (l : list Entry) : Prop :=
  _retryCount s' = _retryCount s /\ (attempts l <= n)%nat.

(** ** What holds at the exits of the installer *)

Definition copy_post (x : CopyExit) (s' : Session) (l : list Entry) : Prop :=
  match x with
  | CopyEnded _ => quiet l
  | CopyFatal => fatal_post s' l
  end.

Definition attempt_post (x : AttemptExit) (s' : Session) (l : list Entry)
    : Prop :=
  match x with
  | Retry => quiet l /\ _lastError s' <> NO_ERROR
  | Succeeded => quiet l
  | Fatal => fatal_post s' l
  end.

Definition loop_post (x : LoopExit) (s' : Session) (l : list Entry) : Prop :=
  match x with
  | Returned b => b = false /\ fatal_post s' l
  | LoopEnded true => quiet l
  | LoopEnded false => quiet l /\ _lastError s' <> NO_ERROR
  end.

(** At the head of the retry loop an error has been recorded, unless
    this is the first pass and the abort flag is down. *)
Definition at_loop_head (retryAttempt : Z) (s : Session) : Prop :=
  (retryAttempt = 0 /\ _abortFlag s = false) \/ _lastError s <> NO_ERROR.

(** The three ways an accepted installation ends: the device restarts,
    the attempts are used up (or the flag was found set at the head of
    the loop), or the operation stopped on the spot. *)
Definition install_post (b : bool) (s' : Session) (l : list Entry) : Prop :=
  (b = true /\ quiet l) \/
  (b = false /\ quiet l /\ cleared s' /\ _lastError s' <> NO_ERROR) \/
  (b = false /\ fatal_post s' l).

(** ** The sessions a caller can hold

    The public members of the header: a session is constructed,
    configured through the setters, and worked on through
    [checkForUpdate], [performUpdate] and [downloadAndInstall];
    [abortUpdate()] may be called at any time between them (during them,
    it is part of [call]).  The check goes back to its caller with either
    result.  The two members that install go back to their caller when
    they return false: when they return true [ESP.restart()] has been
    called, and the session ends with the program.  A run that does not
    return leaves no session to call on.  The accessors are [const]. *)
Inductive reachable {W : Type} (E : Env W) (http_only : bool)
    : Session -> Prop :=
| reach_new (currentVersion githubUrl : string) :
    reachable E http_only (GitFirmwareUpdate currentVersion githubUrl)
| reach_setProgressCallback (nonnull : bool) s :
    reachable E http_only s ->
    reachable E http_only (setProgressCallback nonnull s)
| reach_setServerHandleCallback (nonnull : bool) s :
    reachable E http_only s ->
    reachable E http_only (setServerHandleCallback nonnull s)
| reach_setTimeout (timeoutMs : Z) s :
    reachable E http_only s -> reachable E http_only (setTimeout timeoutMs s)
| reach_setRetryCount (count : Z) s :
    reachable E http_only s -> reachable E http_only (setRetryCount count s)
| reach_setCertificateValidation (validate : bool) s :
    reachable E http_only s ->
    reachable E http_only (setCertificateValidation validate s)
| reach_abortUpdate s :
    reachable E http_only s -> reachable E http_only (abortUpdate s)
| reach_checkForUpdate s w b s' w' l :
    reachable E http_only s ->
    checkForUpdate E http_only s w = Done b s' w' l ->
    reachable E http_only s'
| reach_performUpdate (fuel : nat) s w s' w' l :
    reachable E http_only s ->
    performUpdate E http_only fuel s w = Done false s' w' l ->
    reachable E http_only s'
| reach_downloadAndInstall (fuel : nat) (url : string) s w s' w' l :
    reachable E http_only s ->
    downloadAndInstall E http_only fuel url s w = Done false s' w' l ->
    reachable E http_only s'.

(** ** Reasoning about runs *)

(** [wp f Q QT s w]: the run of [f] from [s] and [w] ends in a result,
    session, world and log that satisfy [Q], or is cut short by the fuel
    in a session, world and log that satisfy [QT]. *)
Definition wp {W A} (f : M W A)
    (Q : A -> Session -> W -> list Entry -> Prop)
    (QT : Session -> W -> list Entry -> Prop)
    (s : Session) (w : W) : Prop :=
  match f s w with
  | Done a s' w' l => Q a s' w' l
  | Unfinished s' w' l => QT s' w' l
  end.

(** ** The error text (lines 190 to 218) *)

(** The table [ERROR_MESSAGES], indexed by the error code. *)
Definition ERROR_MESSAGES (e : UpdateError) : string :=
  match e with
  | NO_ERROR => "No error"
  | NO_UPDATE_AVAILABLE => "No update available"
  | NETWORK_ERROR => "Network connection failed"
  | HTTP_ERROR => "HTTP request failed"
  | JSON_PARSE_ERROR => "Failed to parse JSON response"
  | INVALID_VERSION => "Invalid version string format"
  | DOWNLOAD_FAILED => "Firmware download failed"
  | FLASH_FAILED => "Flash write operation failed"
  | INVALID_URL => "Invalid firmware URL"
  | UPDATE_SIZE_ERROR => "Firmware size validation failed"
  | UPDATE_ABORTED => "Update was aborted"
  end.

(** [getLastErrorString()]: the detail buffer when its first character is
    not NUL, else the entry of the table.  Every value of [UpdateError]
    is within the table, so the fall-back text for a code out of range is
    never reached. *)
Definition getLastErrorString (s : Session) : string :=
  if negb (isEmpty (c_str (_lastErrorDetail s)))
  then c_str (_lastErrorDetail s)
  else ERROR_MESSAGES (_lastError s).

(** The first character of a C string is not one [atoi] starts on: not
    white space, not a sign, not a digit. *)
Definition starts_with_text (s : string) : bool :=
  match s with
  | EmptyString => false
  | String c _ =>
      negb (isspace c) && negb (isdigit c) &&
      negb (char_code c =? 45) && negb (char_code c =? 43)
  end.

(** The string is empty or does not start with a digit. *)
Definition no_leading_digit (t : string) : bool :=
  match t with
  | EmptyString => true
  | String c _ => negb (isdigit c)
  end.

(** What [checkForUpdate] leaves for its caller to see: the result, the
    world, the log, the three cached fields, the error and its detail,
    and the abort flag. *)
Definition checker_view {W} (r : Res W bool) :=
  match r with
  | Done b s w l =>
      Some (b, w, l, _remoteVersion s, _firmwareUrl s, _releaseNotes s,
            _lastError s, _lastErrorDetail s, _abortFlag s)
  | Unfinished _ _ _ => None
  end.

(** What [checkForUpdate] reads of the session it is called on. *)
Definition same_check_input (s1 s2 : Session) : Prop :=
  _currentVersion s1 = _currentVersion s2 /\
  _githubUrl s1 = _githubUrl s2 /\
  _timeoutMs s1 = _timeoutMs s2 /\
  _validateCert s1 = _validateCert s2.


(** Two runs of a computation from sessions related by [R] go the same
    way: same result, same world, same log, and sessions related again. *)
Definition rel {W A} (R : Session -> Session -> Prop) (f : M W A) : Prop :=
  forall s1 s2 w,
    R s1 s2 ->
    match f s1 w, f s2 w with
    | Done a1 t1 w1 l1, Done a2 t2 w2 l2 =>
        a1 = a2 /\ w1 = w2 /\ l1 = l2 /\ R t1 t2
    | Unfinished t1 w1 l1, Unfinished t2 w2 l2 =>
        w1 = w2 /\ l1 = l2 /\ R t1 t2
    | _, _ => False
    end.

(** Sessions that agree on all that [checkForUpdate] reads or writes. *)
Definition check_rel (s1 s2 : Session) : Prop :=
  same_check_input s1 s2 /\
  _remoteVersion s1 = _remoteVersion s2 /\
  _releaseNotes s1 = _releaseNotes s2 /\
  _firmwareUrl s1 = _firmwareUrl s2 /\
  _lastError s1 = _lastError s2 /\
  _lastErrorDetail s1 = _lastErrorDetail s2 /\
  _abortFlag s1 = _abortFlag s2.

(** The first six assignments of [checkForUpdate]. *)
Definition check_reset (s : Session) : Session :=
  set_firmwareUrl "" (set_releaseNotes "" (set_remoteVersion ""
    (set_abortFlag false (set_lastErrorDetail "" (set_lastError NO_ERROR s))))).

(** ** The order of the calls *)

(** Where a run stands with its collaborators: a connection begun and
    not yet ended, a flash transaction begun and neither ended nor
    aborted, the restart requested. *)
Record Proto : Type := mkProto {
  conn : bool;
  flash : bool;
  restarted : bool
}.

(** What a call may rely on, and the bounds of its arguments: no call
    after the restart; one connection at a time, to the URL given, secure
    for an HTTPS URL only and never in an HTTP-only build; requests and
    reads on a connection begun; a read of at most the buffer; one flash
    transaction at a time, begun on an open connection with a positive
    size, written to while it is open and with a positive count; a
    percentage between 0 and 100; the restart with nothing open. *)
Definition allowed (http_only : bool) (url : string) (q : Proto) (e : Entry)
    : Prop :=
  restarted q = false /\
  match e with
  | Call x _ =>
      match x with
      | SecureSetInsecure => http_only = false
      | HttpBegin secure u =>
          conn q = false /\ u = url /\
          secure = startsWith "https://" url /\
          (http_only = true -> secure = false)
      | HttpGET | HttpGetSize | HttpConnected | HttpEnd
      | DeserializeJson | StreamAvailable => conn q = true
      | StreamReadBytes toRead => conn q = true /\ 0 <= toRead <= BUF_SIZE
      | UpdateBegin size =>
          conn q = true /\ flash q = false /\
          0 < size <= UPDATE_SIZE_UNKNOWN
      | UpdateWrite len => flash q = true /\ 0 < len <= INT_MAX
      | UpdateEnd => flash q = true
      | UpdateIsFinished => flash q = false
      | ProgressCallback percent _ _ => 0 <= percent <= 100
      | EspRestart => conn q = false /\ flash q = false
      | _ => True
      end
  | AbortObserved => True
  end.

(** Where the run stands after a call and its answer. *)
Definition next (q : Proto) (e : Entry) : Proto :=
  match e with
  | Call x r =>
      match x in Ext T return T -> Proto with
      | HttpBegin _ _ => fun ok => mkProto ok (flash q) (restarted q)
      | HttpEnd => fun _ => mkProto false (flash q) (restarted q)
      | UpdateBegin _ => fun ok => mkProto (conn q) ok (restarted q)
      | UpdateEnd => fun ok => mkProto (conn q) (negb ok) (restarted q)
      | UpdateAbort => fun _ => mkProto (conn q) false (restarted q)
      | EspRestart => fun _ => mkProto (conn q) (flash q) true
      | _ => fun _ => q
      end r
  | AbortObserved => q
  end.

(** A log all of whose calls are allowed where they stand, from [q] to
    [q']. *)
Fixpoint obeys (http_only : bool) (url : string) (q : Proto)
    (l : list Entry) (q' : Proto) : Prop :=
  match l with
  | [] => q' = q
  | e :: l' =>
      allowed http_only url q e /\ obeys http_only url (next q e) l' q'
  end.

Definition at_rest : Proto := mkProto false false false.
Definition connected : Proto := mkProto true false false.
Definition flashing : Proto := mkProto true true false.
Definition rebooting : Proto := mkProto false false true.

(** ** Calls singled out *)

(** The count asked of a read of the stream. *)
Definition read_size (e : Entry) : option Z :=
  match e with
  | Call x _ => match x with StreamReadBytes toRead => Some toRead | _ => None end
  | AbortObserved => None
  end.

(** The percentage handed to the progress callback. *)
Definition reported_percent (e : Entry) : option Z :=
  match e with
  | Call x _ =>
      match x with ProgressCallback percent _ _ => Some percent | _ => None end
  | AbortObserved => None
  end.

(** A call on the secure client: [setInsecure()], or [http.begin] with
    the secure client. *)
Definition is_secure (e : Entry) : bool :=
  match e with
  | Call x _ =>
      match x with
      | SecureSetInsecure => true
      | HttpBegin secure _ => secure
      | _ => false
      end
  | AbortObserved => false
  end.

Definition is_restart (e : Entry) : bool :=
  match e with
  | Call x _ => match x with EspRestart => true | _ => false end
  | AbortObserved => false
  end.

(** A call on the flash updater, or the restart. *)
Definition touches_flash (e : Entry) : bool :=
  match e with
  | Call x _ =>
      match x with
      | UpdateIsRunning | UpdateBegin _ | UpdateWrite _ | UpdateEnd
      | UpdateIsFinished | UpdateAbort | EspRestart => true
      | _ => false
      end
  | AbortObserved => false
  end.

(** ** What a run does to the flash and to the counters *)


Definition is_update_begin (e : Entry) : bool :=
  match e with
  | Call x _ => match x with UpdateBegin _ => true | _ => false end
  | AbortObserved => false
  end.

(** The calls of [Update.begin] in a log. *)
Definition flash_begins (l : list Entry) : nat :=
  List.length (List.filter is_update_begin l).

(** The flash transaction as the updater sees it: the size it was begun
    with and the bytes handed to it since.  [Update.begin] that succeeds
    opens a transaction, [Update.write] adds the count handed in. *)
Definition flash_step (st : Z * Z) (e : Entry) : Z * Z :=
  match e with
  | Call x r =>
      match x in Ext T return T -> Z * Z with
      | UpdateBegin size => fun ok => if ok then (size, 0) else st
      | UpdateWrite len => fun _ => (fst st, snd st + len)
      | _ => fun _ => st
      end r
  | AbortObserved => st
  end.

Definition transaction (l : list Entry) : Z * Z := fold_left flash_step l (0, 0).

Definition write_len (e : Entry) : Z :=
  match e with
  | Call x _ => match x with UpdateWrite len => len | _ => 0 end
  | AbortObserved => 0
  end.

(** The bytes handed to [Update.write] in a log. *)
Fixpoint written (l : list Entry) : Z :=
  match l with
  | [] => 0
  | e :: l' => write_len e + written l'
  end.

(** A log that leaves a transaction begun, and, when it was begun with
    a known size, with exactly that many bytes handed to it since. *)
Definition complete (l : list Entry) : Prop :=
  forall st,
    0 < fst (fold_left flash_step l st) /\
    (fst (fold_left flash_step l st) <> UPDATE_SIZE_UNKNOWN ->
     snd (fold_left flash_step l st) = fst (fold_left flash_step l st)).

(** The counters after a download that went through: 100 percent, and
    with a known total as many bytes read as the total. *)
Definition finished (s : Session) : Prop :=
  _currentPercent s = 100 /\
  (0 < _totalBytes s -> _currentBytesRead s = _totalBytes s).

(** The four assignments of lines 260 to 263. *)
Definition install_reset (s : Session) : Session :=
  set_lastErrorDetail "" (set_lastError NO_ERROR
    (set_abortFlag false (set_isUpdating true s))).

(** Sessions that differ at most in the abort flag, the error code, the
    error text and [isUpdating]. *)
Definition same_install_input (s1 s2 : Session) : Prop :=
  _currentVersion s1 = _currentVersion s2 /\
  _githubUrl s1 = _githubUrl s2 /\
  _remoteVersion s1 = _remoteVersion s2 /\
  _releaseNotes s1 = _releaseNotes s2 /\
  _firmwareUrl s1 = _firmwareUrl s2 /\
  _progressCallback s1 = _progressCallback s2 /\
  _serverHandleCallback s1 = _serverHandleCallback s2 /\
  _timeoutMs s1 = _timeoutMs s2 /\
  _retryCount s1 = _retryCount s2 /\
  _validateCert s1 = _validateCert s2 /\
  _currentBytesRead s1 = _currentBytesRead s2 /\
  _totalBytes s1 = _totalBytes s2 /\
  _currentPercent s1 = _currentPercent s2.

(* ===================================================================== *)
(** * Properties *)
(* ===================================================================== *)

(** ** Machine integers and [atoi] *)

Lemma to_int_small (x : Z) : INT_MIN <= x <= INT_MAX -> to_int x = x.
Proof.
  unfold to_int, INT_MIN, INT_MAX. intros H.
  rewrite Z.mod_small by lia. lia.
Qed.

Lemma to_int_zero : to_int 0 = 0.
Proof. reflexivity. Qed.

Lemma to_u8_range (x : Z) : 0 <= to_u8 x <= 255.
Proof. unfold to_u8. pose proof (Z.mod_pos_bound x 256). lia. Qed.

Lemma saturate_range (x : Z) : INT_MIN <= saturate x <= INT_MAX.
Proof.
  unfold saturate, INT_MIN, INT_MAX.
  destruct (Z.ltb_spec x (-2147483648)); [lia|].
  destruct (Z.ltb_spec 2147483647 x); lia.
Qed.

Lemma atoi_range (s : string) : INT_MIN <= atoi s <= INT_MAX.
Proof. apply saturate_range. Qed.

Lemma char_code_range (c : ascii) : 0 <= char_code c < 256.
Proof.
  unfold char_code. pose proof (N_ascii_bounded c). lia.
Qed.

Lemma digits_lower (s : string) (acc : Z) : 0 <= acc -> 0 <= digits acc s.
Proof.
  revert acc. induction s as [|c r IH]; intros acc Hacc; simpl; [lia|].
  unfold isdigit. destruct (Z.leb_spec 48 (char_code c)); simpl; [|lia].
  destruct (Z.leb_spec (char_code c) 57); [|lia].
  apply IH. lia.
Qed.

(** Neither a dot nor a NUL is a digit, a sign or white space, so [atoi]
    never reads past one. *)
Lemma dot_not_digit (c : ascii) : is_dot c = true -> isdigit c = false.
Proof. unfold is_dot, isdigit. intros H%Z.eqb_eq. rewrite H. reflexivity. Qed.

Lemma dot_not_space (c : ascii) : is_dot c = true -> isspace c = false.
Proof. unfold is_dot, isspace. intros H%Z.eqb_eq. rewrite H. reflexivity. Qed.

Lemma digits_cut (s : string) (acc : Z) : digits acc (cut_dot s) = digits acc s.
Proof.
  revert acc. induction s as [|c r IH]; intros acc; simpl; [reflexivity|].
  destruct (is_dot c) eqn:Hd; simpl.
  - now rewrite (dot_not_digit c Hd).
  - destruct (isdigit c); [apply IH | reflexivity].
Qed.

Lemma signed_digits_cut (s : string) :
  signed_digits (cut_dot s) = signed_digits s.
Proof.
  destruct s as [|c r]; [reflexivity|].
  pose proof (digits_cut (String c r) 0) as Hall.
  unfold signed_digits. cbn [cut_dot] in *.
  destruct (is_dot c) eqn:Hd.
  - unfold is_dot in Hd. apply Z.eqb_eq in Hd. rewrite Hd. exact Hall.
  - destruct (char_code c =? 45); [now rewrite digits_cut|].
    destruct (char_code c =? 43); [now rewrite digits_cut|].
    exact Hall.
Qed.

Lemma skip_space_cut (s : string) :
  skip_space (cut_dot s) = cut_dot (skip_space s).
Proof.
  induction s as [|c r IH]; simpl; [reflexivity|].
  destruct (is_dot c) eqn:Hd; simpl.
  - rewrite (dot_not_space c Hd). simpl. now rewrite Hd.
  - destruct (isspace c); [exact IH|]. simpl. now rewrite Hd.
Qed.

Lemma atoi_cut (s : string) : atoi (cut_dot s) = atoi s.
Proof.
  unfold atoi. now rewrite skip_space_cut, signed_digits_cut.
Qed.

Lemma split_dot_unfold (s : string) :
  split_dot s =
  cut_dot s :: match strchr_dot s with Some p => split_dot p | None => [] end.
Proof.
  induction s as [|c r IH]; simpl; [reflexivity|].
  destruct (is_dot c); [reflexivity|].
  rewrite IH. reflexivity.
Qed.

(** The parser of the code reads the components the specification names. *)
Lemma parseVersion_components (a : string) :
  parseVersion (c_str a) = components_spec a.
Proof.
  unfold components_spec, parseVersion.
  destruct (c_str a) as [|c r] eqn:Ha; [reflexivity|].
  cbn [isEmpty]. rewrite (split_dot_unfold (String c r)).
  cbn [nth]. rewrite atoi_cut.
  destruct (strchr_dot (String c r)) as [p1|]; [|reflexivity].
  rewrite (split_dot_unfold p1). cbn [nth]. rewrite atoi_cut.
  destruct (strchr_dot p1) as [p2|]; [|reflexivity].
  rewrite (split_dot_unfold p2). cbn [nth]. now rewrite atoi_cut.
Qed.



Lemma cmp_loop_refl (n i : nat) (m : list Z) : cmp_loop n i m m = 0.
Proof.
  revert i. induction n as [|n IH]; intros i; simpl; [reflexivity|].
  rewrite Z.eqb_refl. simpl. apply IH.
Qed.

(** Without a minus sign, nothing [atoi] reads is negative. *)
Lemma no_minus_skip_space (s : string) :
  no_minus s = true -> no_minus (skip_space s) = true.
Proof.
  induction s as [|c r IH]; simpl; [easy|].
  intros [Hc Hr]%andb_true_iff.
  destruct (isspace c); [now apply IH|].
  simpl. now rewrite Hc, Hr.
Qed.

Lemma atoi_no_minus (s : string) : no_minus s = true -> 0 <= atoi s.
Proof.
  intros H%no_minus_skip_space. unfold atoi.
  assert (0 <= signed_digits (skip_space s)) as Hs.
  { destruct (skip_space s) as [|c r]; simpl in *; [lia|].
    apply andb_true_iff in H as [Hc _].
    destruct (char_code c =? 45); [discriminate|].
    destruct (char_code c =? 43); [apply digits_lower; lia|].
    apply (digits_lower (String c r)). lia. }
  unfold saturate, INT_MIN, INT_MAX.
  destruct (Z.ltb_spec (signed_digits (skip_space s)) (-2147483648)); [lia|].
  destruct (Z.ltb_spec 2147483647 (signed_digits (skip_space s))); lia.
Qed.

Lemma no_minus_c_str (s : string) : no_minus s = true -> no_minus (c_str s) = true.
Proof.
  induction s as [|c r IH]; simpl; [easy|].
  intros [Hc Hr]%andb_true_iff.
  destruct (is_nul c); [reflexivity|]. simpl. rewrite Hc. now apply IH.
Qed.

Lemma no_minus_cut (s : string) : no_minus s = true -> no_minus (cut_dot s) = true.
Proof.
  induction s as [|c r IH]; simpl; [easy|].
  intros [Hc Hr]%andb_true_iff.
  destruct (is_dot c); [reflexivity|]. simpl. rewrite Hc. now apply IH.
Qed.

Lemma no_minus_strchr (s p : string) :
  no_minus s = true -> strchr_dot s = Some p -> no_minus p = true.
Proof.
  induction s as [|c r IH]; simpl; [easy|].
  intros [Hc Hr]%andb_true_iff.
  destruct (is_dot c); [intros [= <-]; exact Hr | now apply IH].
Qed.

Lemma parseVersion_no_minus (s : string) :
  no_minus s = true -> Forall (fun v => 0 <= v <= INT_MAX) (parseVersion s).
Proof.
  intros H. unfold parseVersion.
  assert (forall t, no_minus t = true -> 0 <= atoi t <= INT_MAX) as A.
  { intros t Ht. split; [now apply atoi_no_minus | apply atoi_range]. }
  assert (0 <= 0 <= INT_MAX) as Z0 by (unfold INT_MAX; lia).
  destruct (isEmpty s); [repeat constructor; unfold INT_MAX; lia|].
  destruct (strchr_dot s) as [p1|] eqn:H1.
  - pose proof (no_minus_strchr _ _ H H1) as Hp1.
    destruct (strchr_dot p1) as [p2|] eqn:H2.
    + pose proof (no_minus_strchr _ _ Hp1 H2) as Hp2.
      repeat constructor; try apply A; try apply atoi_range; auto;
        now apply atoi_no_minus.
    + repeat constructor; try apply atoi_range; try (unfold INT_MAX; lia);
        now apply atoi_no_minus.
  - repeat constructor; try apply atoi_range; try (unfold INT_MAX; lia);
      now apply atoi_no_minus.
Qed.

Lemma parseVersion_length (s : string) : List.length (parseVersion s) = 3%nat.
Proof.
  unfold parseVersion. destruct (isEmpty s); [reflexivity|].
  destruct (strchr_dot s) as [p1|]; [|reflexivity].
  destruct (strchr_dot p1); reflexivity.
Qed.

(** On non-negative components the subtraction of [cmpVersion] cannot
    wrap, and its sign is the order of the triples. *)
Lemma cmp_loop_sign (x0 x1 x2 y0 y1 y2 : Z) :
  Forall (fun v => 0 <= v <= INT_MAX) [x0; x1; x2] ->
  Forall (fun v => 0 <= v <= INT_MAX) [y0; y1; y2] ->
  let c := cmp_loop 3 0 [x0; x1; x2] [y0; y1; y2] in
  (c < 0 <-> lex_lt [x0; x1; x2] [y0; y1; y2]) /\
  (c = 0 <-> [x0; x1; x2] = [y0; y1; y2]) /\
  (0 < c <-> lex_lt [y0; y1; y2] [x0; x1; x2]).
Proof.
  intros Hx Hy.
  repeat match goal with H : Forall _ (_ :: _) |- _ =>
    apply Forall_cons_iff in H; destruct H as [? H] end.
  unfold INT_MAX in *. unfold lex_lt. cbn [cmp_loop nth].
  assert (forall u v, 0 <= u <= 2147483647 -> 0 <= v <= 2147483647 ->
                      to_int (u - v) = u - v) as T.
  { intros u v Hu Hv. apply to_int_small. unfold INT_MIN, INT_MAX. lia. }
  destruct (Z.eqb_spec x0 y0) as [->|N0]; cbn [negb].
  2:{ rewrite T by lia. repeat split; intros; try lia.
      injection H5; intros; lia. }
  destruct (Z.eqb_spec x1 y1) as [->|N1]; cbn [negb].
  2:{ rewrite T by lia. repeat split; intros; try lia.
      injection H5; intros; lia. }
  destruct (Z.eqb_spec x2 y2) as [->|N2]; cbn [negb].
  2:{ rewrite T by lia. repeat split; intros; try lia.
      injection H5; intros; lia. }
  repeat split; intros; try lia; try reflexivity.
Qed.

Lemma components_in_int (a : string) : Forall in_int (components_spec a).
Proof. unfold components_spec. repeat constructor; apply atoi_range. Qed.

Lemma components_no_minus (a : string) :
  no_minus a = true -> Forall (fun v => 0 <= v <= INT_MAX) (components_spec a).
Proof.
  intros H. rewrite <- parseVersion_components.
  apply parseVersion_no_minus, no_minus_c_str, H.
Qed.

Lemma cmpVersion_sign (a b : string) :
  Forall (fun v => 0 <= v) (components_spec a) ->
  Forall (fun v => 0 <= v) (components_spec b) ->
  (cmpVersion a b < 0 <-> lex_lt (components_spec a) (components_spec b)) /\
  (cmpVersion a b = 0 <-> components_spec a = components_spec b) /\
  (0 < cmpVersion a b <-> lex_lt (components_spec b) (components_spec a)).
Proof.
  intros Ha Hb. unfold cmpVersion. rewrite !parseVersion_components.
  pose proof (components_in_int a) as Ia. pose proof (components_in_int b) as Ib.
  unfold components_spec in *.
  apply cmp_loop_sign.
  - repeat match goal with H : Forall _ (_ :: _) |- _ =>
      apply Forall_cons_iff in H; destruct H as [? H] end.
    unfold in_int in *. repeat constructor; lia.
  - repeat match goal with H : Forall _ (_ :: _) |- _ =>
      apply Forall_cons_iff in H; destruct H as [? H] end.
    unfold in_int in *. repeat constructor; lia.
Qed.

(** ** The version comparator *)

(** C5, as the code has it: [cmpVersion] reads the first three components
    of each argument split on ['.'] as integers with [atoi] (a missing or
    non-numeric component is 0, a leading minus sign is honoured), the
    components are non-negative when the string has no minus sign, and on
    non-negative components the result has the sign of the first unequal
    pair and is 0 when the three pairs match; [cmp(x,x) = 0] for every
    string, ["1.2.3" < "1.2.4"], ["2.0.0" > "1.9.9"], and [""] and ["abc"]
    read as 0.0.0. *)
Theorem cmpVersion_components :
  (forall a, parseVersion (c_str a) = components_spec a) /\
  (forall a, no_minus a = true ->
             Forall (fun v => 0 <= v <= INT_MAX) (components_spec a)) /\
  (forall a b,
      Forall (fun v => 0 <= v) (components_spec a) ->
      Forall (fun v => 0 <= v) (components_spec b) ->
      (cmpVersion a b < 0 <-> lex_lt (components_spec a) (components_spec b)) /\
      (cmpVersion a b = 0 <-> components_spec a = components_spec b) /\
      (0 < cmpVersion a b <-> lex_lt (components_spec b) (components_spec a))) /\
  (forall x, cmpVersion x x = 0) /\
  cmpVersion "1.2.3" "1.2.4" < 0 /\
  0 < cmpVersion "2.0.0" "1.9.9" /\
  parseVersion (c_str "") = [0; 0; 0] /\
  parseVersion (c_str "abc") = [0; 0; 0] /\
  cmpVersion "" "abc" = 0 /\ cmpVersion "abc" "0.0.0" = 0.
Proof.
  split; [exact parseVersion_components|].
  split; [exact components_no_minus|].
  split; [exact cmpVersion_sign|].
  split; [intros x; apply cmp_loop_refl|].
  repeat split; reflexivity.
Qed.

Lemma cmpVersion_components_witness :
  no_minus "1.2.3" = true /\
  Forall (fun v => 0 <= v) (components_spec "1.2.3") /\
  Forall (fun v => 0 <= v) (components_spec "1.10.0") /\
  (cmpVersion "1.2.3" "1.10.0" < 0 <->
   lex_lt (components_spec "1.2.3") (components_spec "1.10.0")).
Proof.
  destruct cmpVersion_components as (_ & Hpos & Hsign & _).
  assert (Forall (fun v => 0 <= v) (components_spec "1.2.3")) as H1.
  { eapply Forall_impl; [exact (Hpos "1.2.3" eq_refl)|]. simpl; intros; lia. }
  assert (Forall (fun v => 0 <= v) (components_spec "1.10.0")) as H2.
  { eapply Forall_impl; [exact (Hpos "1.10.0" eq_refl)|]. simpl; intros; lia. }
  split; [reflexivity|]. split; [exact H1|]. split; [exact H2|].
  exact (proj1 (Hsign "1.2.3" "1.10.0" H1 H2)).
Defined.

(** C5 as stated fails: a component with a minus sign is read as a
    negative integer. *)
Lemma cmpVersion_negative_component :
  parseVersion (c_str "-1.2.3") = [-1; 2; 3] /\
  ~ Forall (fun v => 0 <= v) (parseVersion (c_str "-1.2.3")) /\
  0 < cmpVersion "0.0.0" "-1.2.3".
Proof.
  split; [reflexivity|]. split; [|reflexivity].
  intros H. change (parseVersion (c_str "-1.2.3")) with [-1; 2; 3] in H.
  apply Forall_cons_iff in H as [H _]. lia.
Qed.

(** C9: two version strings that agree on their first three parsed
    components compare equal, whatever follows the third component;
    ["1.2.3.4"] and ["1.2.3.9"] compare equal. *)
Theorem cmpVersion_first_three (a b : string) :
  components_spec a = components_spec b ->
  cmpVersion a b = 0 /\ cmpVersion "1.2.3.4" "1.2.3.9" = 0.
Proof.
  intros H. split; [|reflexivity].
  unfold cmpVersion. rewrite !parseVersion_components, H.
  apply cmp_loop_refl.
Qed.

Lemma cmpVersion_first_three_witness :
  components_spec "1.2.3.4" = components_spec "1.2.3.9" /\
  cmpVersion "1.2.3.4" "1.2.3.9" = 0.
Proof.
  split; [reflexivity|].
  exact (proj1 (cmpVersion_first_three "1.2.3.4" "1.2.3.9" eq_refl)).
Defined.

(** ** The progress accessor *)

Lemma getProgress_result (s : Session) (out : Z * Z * Z) :
  fst (getProgress s out) = true <-> live s.
Proof.
  unfold getProgress, live.
  destruct (_isUpdating s) eqn:Hu; cbn [negb andb orb].
  - cbn [fst]. tauto.
  - destruct (Z.eqb_spec (_currentPercent s) 0) as [Hp|Hp]; cbn [andb].
    + destruct (Z.eqb_spec (_currentBytesRead s) 0) as [Hb|Hb]; cbn [fst].
      * split; [discriminate|]. intros [H|[H _]]; [discriminate|lia].
      * rewrite Hp. cbn. split; [discriminate|].
        intros [H|[H _]]; [discriminate|lia].
    + cbn [fst]. rewrite andb_true_iff, Z.leb_le, Z.ltb_lt.
      split; [tauto|]. intros [H|H]; [discriminate|exact H].
Qed.

(** C8, as the code has it: [getProgress] returns true exactly when a
    download is live (an update is in progress, or a download of known
    size stands at 100 percent), and it hands out the recorded snapshot
    except in the idle state with no progress recorded, where it returns
    false and leaves the caller's three variables as they were. *)
Theorem getProgress_live (s : Session) (out : Z * Z * Z) :
  (fst (getProgress s out) = true <-> live s) /\
  (idle_zero s = false -> snd (getProgress s out) = snapshot s) /\
  (idle_zero s = true -> getProgress s out = (false, out)).
Proof.
  split; [apply getProgress_result|].
  unfold getProgress, idle_zero, snapshot.
  split; intros ->; reflexivity.
Qed.

Lemma getProgress_live_witness :
  let s := set_currentBytesRead 2048 (set_totalBytes 4096 (set_currentPercent 50
             (set_isUpdating true (GitFirmwareUpdate "1.0.0" "http://h/latest.json")))) in
  idle_zero s = false /\ getProgress s (0, 0, 0) = (true, (2048, 4096, 50)).
Proof.
  intros s. split; [reflexivity|].
  pose proof (getProgress_live s (0, 0, 0)) as (_ & H & _).
  specialize (H eq_refl). reflexivity.
Defined.

(** C8 as stated fails: in the idle state nothing is reported, the
    caller's variables keep values that are not the snapshot. *)
Lemma getProgress_idle_keeps_stale :
  let s := GitFirmwareUpdate "1.0.0" "http://h/latest.json" in
  snapshot s = (0, 0, 0) /\
  getProgress s (2048, 4096, 50) = (false, (2048, 4096, 50)) /\
  snd (getProgress s (2048, 4096, 50)) <> snapshot s.
Proof.
  cbv zeta. repeat split; try reflexivity. discriminate.
Qed.

(** C10: when no update is in progress and the recorded percentage and
    byte count are 0, [getProgress] returns false and writes none of its
    three output parameters. *)
Theorem getProgress_idle_frame (s : Session) (out : Z * Z * Z) :
  _isUpdating s = false ->
  _currentPercent s = 0 ->
  _currentBytesRead s = 0 ->
  getProgress s out = (false, out).
Proof.
  intros Hu Hp Hb. unfold getProgress. rewrite Hu, Hp, Hb. reflexivity.
Qed.

Lemma getProgress_idle_frame_witness :
  getProgress (GitFirmwareUpdate "1.0.0" "http://h/latest.json") (7, 8, 9)
  = (false, (7, 8, 9)).
Proof.
  exact (getProgress_idle_frame
           (GitFirmwareUpdate "1.0.0" "http://h/latest.json") (7, 8, 9)
           eq_refl eq_refl eq_refl).
Defined.

(** ** Rules for runs *)

Section Rules.

Context {W : Type} (E : Env W).

Lemma wp_bind {A B} (f : M W A) (g : A -> M W B)
    (Q : B -> Session -> W -> list Entry -> Prop)
    (QT : Session -> W -> list Entry -> Prop) s w :
  wp f (fun a s1 w1 l1 =>
          wp (g a) (fun b s2 w2 l2 => Q b s2 w2 (l1 ++ l2)%list)
                   (fun s2 w2 l2 => QT s2 w2 (l1 ++ l2)%list) s1 w1)
       QT s w ->
  wp (bind f g) Q QT s w.
Proof.
  unfold wp, bind. destruct (f s w) as [a s1 w1 l1|]; [|easy].
  destruct (g a s1 w1); easy.
Qed.

Lemma wp_ret {A} (a : A) (Q : A -> Session -> W -> list Entry -> Prop) QT s w :
  Q a s w [] -> wp (ret a) Q QT s w.
Proof. easy. Qed.

Lemma wp_modify (f : Session -> Session)
    (Q : unit -> Session -> W -> list Entry -> Prop) QT s w :
  Q tt (f s) w [] -> wp (modify f) Q QT s w.
Proof. easy. Qed.

Lemma wp_fail error msg
    (Q : unit -> Session -> W -> list Entry -> Prop) QT s w :
  Q tt (setError error (Some msg) s) w [] -> wp (fail error msg) Q QT s w.
Proof. easy. Qed.

Lemma wp_gets {A} (f : Session -> A)
    (Q : A -> Session -> W -> list Entry -> Prop) QT s w :
  Q (f s) s w [] -> wp (gets f) Q QT s w.
Proof. easy. Qed.

Lemma wp_note (e : Entry)
    (Q : unit -> Session -> W -> list Entry -> Prop) QT s w :
  Q tt s w [e] -> wp (note e) Q QT s w.
Proof. easy. Qed.

Lemma wp_out_of_fuel {A}
    (Q : A -> Session -> W -> list Entry -> Prop)
    (QT : Session -> W -> list Entry -> Prop) s w :
  QT s w [] -> wp (@out_of_fuel W A) Q QT s w.
Proof. easy. Qed.

(** A call, with the answer of the world kept. *)
Lemma wp_call_exact {T} (e : Ext T)
    (Q : T -> Session -> W -> list Entry -> Prop) QT s w :
  Q (fst (handle E e w))
    (set_abortFlag (_abortFlag s || abort_called E (snd (handle E e w))) s)
    (snd (handle E e w)) [Call e (fst (handle E e w))] ->
  wp (call E e) Q QT s w.
Proof. intros H. exact H. Qed.

(** A call, whatever the world answers. *)
Lemma wp_call {T} (e : Ext T)
    (Q : T -> Session -> W -> list Entry -> Prop) QT s w :
  (forall r w' b, Q r (set_abortFlag (_abortFlag s || b) s) w' [Call e r]) ->
  wp (call E e) Q QT s w.
Proof. intros H. apply wp_call_exact, H. Qed.

Lemma wp_mono {A} (f : M W A) (Q Q' : A -> Session -> W -> list Entry -> Prop)
    (QT QT' : Session -> W -> list Entry -> Prop) s w :
  wp f Q QT s w ->
  (forall a s' w' l, Q a s' w' l -> Q' a s' w' l) ->
  (forall s' w' l, QT s' w' l -> QT' s' w' l) ->
  wp f Q' QT' s w.
Proof. unfold wp. destruct (f s w); auto. Qed.

Lemma wp_done {A} (f : M W A) (Q : A -> Session -> W -> list Entry -> Prop) s w :
  wp f Q (fun _ _ _ => False) s w ->
  exists a s' w' l, f s w = Done a s' w' l /\ Q a s' w' l.
Proof. unfold wp. destruct (f s w); [eauto 6 | easy]. Qed.

End Rules.

(** Fields of a session after a chain of assignments. *)
Ltac fields_in_goal :=
  cbn [_currentVersion _githubUrl _remoteVersion _releaseNotes _firmwareUrl
       _lastError _lastErrorDetail _progressCallback _serverHandleCallback
       _timeoutMs _retryCount _validateCert _abortFlag _isUpdating
       _currentBytesRead _totalBytes _currentPercent
       set_remoteVersion set_releaseNotes set_firmwareUrl set_lastError
       set_lastErrorDetail set_progressCallback set_serverHandleCallback
       set_timeoutMs set_retryCount set_validateCert set_abortFlag
       set_isUpdating set_currentBytesRead set_totalBytes set_currentPercent
       setError clear_progress abortUpdate app].

Ltac fields :=
  cbn [_currentVersion _githubUrl _remoteVersion _releaseNotes _firmwareUrl
       _lastError _lastErrorDetail _progressCallback _serverHandleCallback
       _timeoutMs _retryCount _validateCert _abortFlag _isUpdating
       _currentBytesRead _totalBytes _currentPercent
       set_remoteVersion set_releaseNotes set_firmwareUrl set_lastError
       set_lastErrorDetail set_progressCallback set_serverHandleCallback
       set_timeoutMs set_retryCount set_validateCert set_abortFlag
       set_isUpdating set_currentBytesRead set_totalBytes set_currentPercent
       setError clear_progress abortUpdate app] in *.

(** One step of a run. *)
Ltac wp_step E :=
  lazymatch goal with
  | |- wp (bind _ _) _ _ _ _ => apply wp_bind
  | |- wp (ret _) _ _ _ _ => apply wp_ret
  | |- wp (modify _) _ _ _ _ => apply wp_modify
  | |- wp (fail _ _) _ _ _ _ => apply wp_fail
  | |- wp (gets _) _ _ _ _ => apply wp_gets
  | |- wp (note _) _ _ _ _ => apply wp_note
  | |- wp out_of_fuel _ _ _ _ => apply wp_out_of_fuel
  | |- wp (call _ _) _ _ _ _ =>
      let r := fresh "r" in let w' := fresh "w" in
      let b := fresh "ab" in
      apply (wp_call E); intros r w' b;
      lazymatch type of r with unit => destruct r | _ => idtac end
  | |- wp (when ?b _) _ _ _ _ => unfold when at 1
  | |- wp (if ?b then _ else _) _ _ _ _ =>
      let H := fresh "Hc" in destruct b eqn:H
  | |- wp (match ?x with _ => _ end) _ _ _ _ =>
      let H := fresh "Hm" in destruct x eqn:H
  end; cbv beta; fields_in_goal.

Ltac wp_run E := repeat wp_step E.

(** A log written out has an entry with a given property. *)
Ltac has_entry :=
  first [ apply Exists_cons_hd; solve [cbn; eauto]
        | apply Exists_cons_tl; has_entry ].

(** An entry with a given property in a log written out. *)
Ltac in_log H :=
  repeat (apply Exists_cons in H as [H|H]; [try (exact (False_ind _ H))|]);
  try (apply Exists_nil in H; exact (False_ind _ H)).

(** ** The checker *)

Section CheckerProperties.

Context {W : Type} (E : Env W) (http_only : bool).

(** C6, as the code has it: when [checkForUpdate] comes back without a
    manifest having been parsed (scheme refused, connection or HTTP
    failure, JSON error), it returns false and the three cached fields
    are empty; once a manifest has been parsed the fields hold its
    values, a missing key as the empty string, whether the check then
    returns true or false. *)
Theorem checkForUpdate_cached_fields (s : Session) (w : W) :
  exists b s' w' l,
    checkForUpdate E http_only s w = Done b s' w' l /\
    ((forall doc, ~ Exists (parsed_manifest doc) l) ->
     b = false /\ _remoteVersion s' = "" /\ _firmwareUrl s' = "" /\
     _releaseNotes s' = "") /\
    (forall doc, Exists (parsed_manifest doc) l ->
     _remoteVersion s' = json_field doc "version" /\
     _firmwareUrl s' = json_field doc "url" /\
     _releaseNotes s' = json_field doc "notes").
Proof.
  apply wp_done. unfold checkForUpdate.
  wp_run E; fields.
  all: split; [intros Hno | intros doc H; in_log H; cbn in H].
  all: try (repeat split; reflexivity).
  all: try (exfalso; eapply Hno; has_entry).
  all: try congruence.
  all: replace doc with g by congruence; auto.
Qed.



End CheckerProperties.



(** C6 as stated fails: with the manifest of version 1.0.1 and the device
    already at 1.0.1 the check returns false, and the cached version and
    URL are those of the manifest, not empty. *)
Lemma checkForUpdate_false_keeps_manifest :
  match checkForUpdate (sim good_server) true
          (GitFirmwareUpdate "1.0.1" "http://x/latest.json") 0%nat with
  | Done b s' _ _ =>
      b = false /\ _lastError s' = NO_UPDATE_AVAILABLE /\
      _remoteVersion s' = "1.0.1" /\ _firmwareUrl s' = "http://x/fw.bin" /\
      _remoteVersion s' <> ""
  | Unfinished _ _ _ => False
  end.
Proof.
  vm_compute. repeat split; discriminate.
Qed.

Lemma checkForUpdate_cached_fields_witness :
  exists s' w' l,
    checkForUpdate (sim dead_server) true a_session 0%nat = Done false s' w' l /\
    _remoteVersion s' = "" /\ _firmwareUrl s' = "" /\ _releaseNotes s' = "".
Proof.
  destruct (checkForUpdate_cached_fields (sim dead_server) true a_session 0%nat)
    as (b & s' & w' & l & Heq & Hno & _).
  assert (l = res_log (checkForUpdate (sim dead_server) true a_session 0%nat))
    as Hl by (rewrite Heq; reflexivity).
  vm_compute in Hl.
  destruct Hno as (-> & H).
  { intros doc H. rewrite Hl in H. in_log H. }
  exists s', w', l. split; [exact Heq|exact H].
Defined.

(** ** The installer *)

Lemma quiet_app (l1 l2 : list Entry) : quiet l1 -> quiet l2 -> quiet (l1 ++ l2).
Proof. unfold quiet. intros. apply Forall_app; auto. Qed.

Lemma quiet_nil : quiet [].
Proof. constructor. Qed.

Lemma quiet_cons (e : Entry) (l : list Entry) :
  ~ final_entry e -> quiet l -> quiet (e :: l).
Proof. unfold quiet. intros. constructor; auto. Qed.

Lemma stops_after_app (x : Entry) (l1 l2 : list Entry) :
  quiet l1 -> stops_after x l2 -> stops_after x (l1 ++ l2).
Proof.
  intros H1 (pre & -> & Hpre). exists (l1 ++ pre)%list.
  split; [now rewrite app_assoc | now apply quiet_app].
Qed.

Lemma fatal_post_app (s : Session) (l1 l2 : list Entry) :
  quiet l1 -> fatal_post s l2 -> fatal_post s (l1 ++ l2).
Proof.
  intros H1 (Hc & x & Hx & Hcase). split; [exact Hc|].
  exists x. split; [now apply stops_after_app | exact Hcase].
Qed.

Lemma stops_after_here (x : Entry) (r r' : unit) :
  stops_after x [x; Call UpdateAbort r; Call HttpEnd r'].
Proof. destruct r, r'. exists []. split; [reflexivity | constructor]. Qed.

Lemma stops_after_cons (x e : Entry) (l : list Entry) :
  ~ final_entry e -> stops_after x l -> stops_after x (e :: l).
Proof.
  intros He H. apply (stops_after_app x [e] l); [|exact H].
  apply quiet_cons; [exact He | apply quiet_nil].
Qed.

Lemma fatal_post_cons (s : Session) (e : Entry) (l : list Entry) :
  ~ final_entry e -> fatal_post s l -> fatal_post s (e :: l).
Proof.
  intros He H. apply (fatal_post_app s [e] l); [|exact H].
  apply quiet_cons; [exact He | apply quiet_nil].
Qed.

Lemma short_write_iff (len written : Z) :
  short_write (Call (UpdateWrite len) written) <->
  (to_size written =? to_size len) = false.
Proof. cbn. symmetry. apply Z.eqb_neq. Qed.

(** An entry that is plainly not final. *)
Ltac not_final :=
  let H := fresh in
  intros [H|H];
  [ first [ apply short_write_iff in H; simpl negb in *; congruence
          | cbn in H; contradiction ]
  | discriminate H ].

(** Logs built by appending are quiet when their pieces are. *)
Ltac quiet_log :=
  repeat first
    [ assumption
    | apply quiet_nil
    | apply quiet_cons; [not_final|]
    | apply quiet_app ].

Ltac flip_tests :=
  repeat match goal with
    | H : negb _ = true |- _ => apply negb_true_iff in H
    | H : negb _ = false |- _ => apply negb_false_iff in H
    end.

(** The log ends with the entry [x], the abort and the release. *)
Ltac stops_here :=
  repeat first
    [ apply stops_after_here
    | apply stops_after_cons; [not_final|]
    | apply stops_after_app; [quiet_log; fail|] ].

(** The log is a quiet one followed by one that stops on the spot. *)
Ltac fatal_later :=
  repeat first
    [ assumption
    | apply fatal_post_cons; [not_final|]
    | apply fatal_post_app; [quiet_log; fail|] ].

Ltac fatal_here :=
  split;
  [ unfold cleared; fields; repeat split; reflexivity
  | eexists; split;
    [ stops_here
    | first [ left; split; [apply short_write_iff; assumption | reflexivity]
            | right; split; reflexivity ] ] ].

Section InstallerProperties.

Context {W : Type} (E : Env W) (http_only : bool).

Lemma copy_post_cons x s' e l :
  ~ final_entry e -> copy_post x s' l -> copy_post x s' (e :: l).
Proof.
  destruct x; cbn; intros; [now apply quiet_cons | now apply fatal_post_cons].
Qed.

Lemma copy_loop_spec (fuel : nat) (hasCL : bool) (cl totalRead : Z) s w :
  wp (copy_loop E fuel hasCL cl totalRead)
     (fun x s' _ l => copy_post x s' l) (fun _ _ l => quiet l) s w.
Proof.
  revert totalRead s w. induction fuel as [|fuel IH]; intros totalRead s w.
  - apply wp_out_of_fuel, quiet_nil.
  - cbn [copy_loop]. unfold short_write_exit, reportProgress.
    wp_run E.
    all: try (eapply wp_mono; [apply IH| |]; cbv beta; intros).
    all: flip_tests.
    all: try (repeat (apply copy_post_cons; [not_final|]); assumption).
    all: try (cbn [copy_post]; quiet_log; fail).
    all: cbn [copy_post]; fatal_here.
Qed.

Lemma begin_loop_spec (n : nat) (beginRetries size : Z) s w :
  wp (begin_loop E n beginRetries size)
     (fun _ s' _ l => quiet l /\ _retryCount s' = _retryCount s)
     (fun _ _ _ => False) s w.
Proof.
  revert beginRetries s w.
  induction n as [|n IH]; intros beginRetries s w; cbn [begin_loop].
  - wp_run E. split; [apply quiet_nil | reflexivity].
  - wp_run E.
    all: try (eapply wp_mono; [apply IH| |]; cbv beta; fields_in_goal;
              intros; try contradiction).
    all: repeat match goal with H : _ /\ _ |- _ => destruct H end.
    all: split; [quiet_log | fields; auto].
Qed.

Lemma attempt_post_cons x s' e l :
  ~ final_entry e -> attempt_post x s' l -> attempt_post x s' (e :: l).
Proof.
  destruct x; cbn; intros He H.
  - destruct H. split; [now apply quiet_cons | assumption].
  - now apply quiet_cons.
  - now apply fatal_post_cons.
Qed.

Lemma attempt_post_app x s' l1 l :
  quiet l1 -> attempt_post x s' l -> attempt_post x s' (l1 ++ l).
Proof.
  destruct x; cbn; intros He H.
  - destruct H. split; [now apply quiet_app | assumption].
  - now apply quiet_app.
  - now apply fatal_post_app.
Qed.

Lemma conclude_spec (hasCL : bool) (cl totalRead : Z) s w :
  wp (conclude E hasCL cl totalRead)
     (fun x s' _ l => attempt_post x s' l) (fun _ _ _ => False) s w.
Proof.
  unfold conclude, reportProgress. wp_run E.
  all: flip_tests; cbn [attempt_post].
  all: try (quiet_log; fail).
  all: try (split; [quiet_log | fields; discriminate]; fail).
  all: fatal_here.
Qed.

Lemma download_spec (k : nat) s w :
  wp (download E k)
     (fun x s' _ l => attempt_post x s' l) (fun _ _ l => quiet l) s w.
Proof.
  unfold download, reportProgress. wp_run E.
  all: eapply wp_mono; [apply begin_loop_spec| |]; cbv beta;
       [intros ? ? ? ? [? _] | intros; contradiction].
  all: wp_run E.
  all: try (eapply wp_mono; [apply copy_loop_spec| |]; cbv beta; intros).
  all: wp_run E.
  all: try (eapply wp_mono; [apply conclude_spec| |]; cbv beta;
            [intros | intros; contradiction]).
  all: flip_tests; cbn [copy_post attempt_post] in *; rewrite ?app_nil_r.
  all: try (quiet_log; fail).
  all: try (split; [quiet_log | fields; discriminate]; fail).
  all: try (fatal_later; fail).
  all: repeat first [ apply attempt_post_cons; [not_final|]
                    | apply attempt_post_app; [quiet_log; fail|] ];
       assumption.
Qed.

Lemma attempt_spec (k : nat) (url : string) s w :
  wp (attempt E http_only k url)
     (fun x s' _ l => attempt_post x s' l) (fun _ _ l => quiet l) s w.
Proof.
  unfold attempt. wp_run E.
  all: try (eapply wp_mono; [apply download_spec| |]; cbv beta; intros).
  all: flip_tests; cbn [attempt_post] in *.
  all: try (split; [quiet_log | fields; discriminate]; fail).
  all: try (quiet_log; fail).
  all: repeat (apply attempt_post_cons; [not_final|]); assumption.
Qed.

Lemma loop_post_cons x s' e l :
  ~ final_entry e -> loop_post x s' l -> loop_post x s' (e :: l).
Proof.
  destruct x as [b|[|]]; cbn; intros He H.
  - destruct H. split; [assumption | now apply fatal_post_cons].
  - now apply quiet_cons.
  - destruct H. split; [now apply quiet_cons | assumption].
Qed.

Lemma loop_post_app x s' l1 l :
  quiet l1 -> loop_post x s' l -> loop_post x s' (l1 ++ l).
Proof.
  destruct x as [b|[|]]; cbn; intros He H.
  - destruct H. split; [assumption | now apply fatal_post_app].
  - now apply quiet_app.
  - destruct H. split; [now apply quiet_app | assumption].
Qed.

Lemma retry_loop_spec (k fuel : nat) (url : string) (retryAttempt : Z) s w :
  at_loop_head retryAttempt s ->
  wp (retry_loop E http_only k fuel url retryAttempt)
     (fun x s' _ l => loop_post x s' l) (fun _ _ l => quiet l) s w.
Proof.
  revert retryAttempt s w.
  induction fuel as [|fuel IH]; intros retryAttempt s w Hhead.
  - apply wp_out_of_fuel, quiet_nil.
  - cbn [retry_loop]. wp_run E.
    all: try (eapply wp_mono; [apply attempt_spec| |]; cbv beta; intros;
              wp_run E).
    all: try (eapply wp_mono;
              [apply IH; right; cbn [attempt_post] in *; tauto| |];
              cbv beta; intros).
    all: cbn [attempt_post loop_post] in *; rewrite ?app_nil_r.
    all: try (quiet_log; fail).
    all: try (split; [reflexivity | fatal_later]; fail).
    all: try (repeat first [ apply loop_post_cons; [not_final|]
                           | apply loop_post_app; [tauto|] ];
              assumption).
    all: try (repeat match goal with H : _ /\ _ |- _ => destruct H end;
              quiet_log; fail).
    split; [apply quiet_nil|].
    destruct Hhead as [[-> Hab]|Hne]; [|exact Hne].
    rewrite Hab in *. pose proof (to_u8_range (_retryCount s)).
    cbn [negb] in *. rewrite andb_true_r in *.
    apply Z.leb_gt in Hc. lia.
Qed.

Lemma url_accepted_inv (url : string) :
  url_accepted http_only url = true ->
  isEmpty url = false /\ http_only && startsWith "https://" url = false.
Proof.
  unfold url_accepted. intros [H1 H2]%andb_true_iff.
  apply negb_true_iff in H1, H2. auto.
Qed.

Lemma install_spec (fuel : nat) (url : string) s w :
  url_accepted http_only url = true ->
  wp (performHttpFirmwareUpdate E http_only fuel url)
     (fun b s' _ l => install_post b s' l) (fun _ _ l => quiet l) s w.
Proof.
  intros [H1 H2]%url_accepted_inv.
  unfold performHttpFirmwareUpdate. rewrite H1, H2. wp_run E.
  eapply wp_mono; [apply retry_loop_spec; left; split; reflexivity| |];
    cbv beta; intros; [|rewrite ?app_nil_r; assumption].
  wp_run E; cbn [loop_post] in *; unfold install_post; rewrite ?app_nil_r.
  - right; right. tauto.
  - left. split; [reflexivity|quiet_log].
  - right; left. destruct H.
    repeat split; try reflexivity; [quiet_log | fields; assumption].
Qed.

Lemma install_refused (fuel : nat) (url : string) s w :
  url_accepted http_only url = false ->
  exists s',
    performHttpFirmwareUpdate E http_only fuel url s w = Done false s' w [] /\
    _lastError s' = INVALID_URL /\ snapshot s' = snapshot s.
Proof.
  unfold url_accepted, performHttpFirmwareUpdate. intros H.
  destruct (isEmpty url); cbn [negb andb] in H.
  - eexists. split; [reflexivity|]. split; reflexivity.
  - rewrite negb_false_iff in H. rewrite H.
    eexists. split; [reflexivity|]. split; reflexivity.
Qed.

(** A run cut short by the fuel has seen neither a short write nor the
    abort flag set after a copy loop. *)
Lemma unfinished_runs_are_quiet (fuel : nat) (url : string) s w s' w' l :
  performHttpFirmwareUpdate E http_only fuel url s w = Unfinished s' w' l ->
  quiet l.
Proof.
  intros Heq. destruct (url_accepted http_only url) eqn:Hurl.
  - pose proof (install_spec fuel url s w Hurl) as Hwp. unfold wp in Hwp.
    now rewrite Heq in Hwp.
  - destruct (install_refused fuel url s w Hurl) as (s1 & Heq1 & _).
    rewrite Heq1 in Heq. discriminate.
Qed.

Lemma quiet_no_final (l : list Entry) :
  quiet l -> ~ Exists final_entry l.
Proof.
  unfold quiet. intros Hq Hex. apply Exists_exists in Hex as (e & Hin & He).
  rewrite Forall_forall in Hq. exact (Hq e Hin He).
Qed.

Lemma short_write_inv (x : Entry) :
  short_write x ->
  exists len written,
    x = Call (UpdateWrite len) written /\ to_size written <> to_size len.
Proof.
  destruct x as [T e r|]; [|contradiction].
  destruct e; cbn; try contradiction. eauto.
Qed.

(** A run in which a final entry occurs is over: it returned false, the
    final entry is the last but two of the log, and the session is
    cleared. *)
Lemma final_entry_ends (fuel : nat) (url : string) s w :
  Exists final_entry
    (res_log (performHttpFirmwareUpdate E http_only fuel url s w)) ->
  exists s' w' l,
    performHttpFirmwareUpdate E http_only fuel url s w = Done false s' w' l /\
    fatal_post s' l.
Proof.
  intros Hex. destruct (url_accepted http_only url) eqn:Hurl.
  - pose proof (install_spec fuel url s w Hurl) as Hwp. unfold wp in Hwp.
    destruct (performHttpFirmwareUpdate E http_only fuel url s w)
      as [b s' w' l|s' w' l]; cbn [res_log] in Hex.
    + destruct Hwp as [[_ Hq]|[(_ & Hq & _)|[-> Hf]]].
      * destruct (quiet_no_final l Hq Hex).
      * destruct (quiet_no_final l Hq Hex).
      * eauto.
    + destruct (quiet_no_final l Hwp Hex).
  - destruct (install_refused fuel url s w Hurl) as (s' & Heq & _).
    rewrite Heq in Hex. cbn in Hex. apply Exists_nil in Hex. contradiction.
Qed.

Lemma stops_after_final (x : Entry) (l : list Entry) (P : Entry -> Prop) :
  (forall e, P e -> final_entry e) ->
  stops_after x l -> Exists P l -> P x.
Proof.
  intros HP (pre & -> & Hq) Hex.
  apply Exists_app in Hex as [Hex|Hex].
  - exfalso. apply (quiet_no_final pre Hq).
    eapply Exists_impl; [exact Hex | exact HP].
  - apply Exists_cons in Hex as [Hx|Hex]; [exact Hx|].
    exfalso. apply Exists_cons in Hex as [Hx|Hex].
    + apply HP in Hx. destruct Hx as [Hx|Hx]; [exact Hx | discriminate Hx].
    + apply Exists_cons in Hex as [Hx|Hex].
      * apply HP in Hx. destruct Hx as [Hx|Hx]; [exact Hx | discriminate Hx].
      * apply Exists_nil in Hex. exact Hex.
Qed.

(** C1: when a flash write of a run of [performHttpFirmwareUpdate]
    returns a count other than the count handed in, the operation ends
    on the spot: the flash transaction is aborted, the connection is
    released, nothing else is called (no further attempt), [isUpdating]
    and the three counters are cleared, [lastError] is [FLASH_FAILED]
    and the function returns false. *)
Theorem short_write_is_fatal (fuel : nat) (url : string) (s : Session) (w : W) :
  Exists short_write
    (res_log (performHttpFirmwareUpdate E http_only fuel url s w)) ->
  exists s' w' pre len written,
    performHttpFirmwareUpdate E http_only fuel url s w =
      Done false s' w'
        (pre ++ [Call (UpdateWrite len) written;
                 Call UpdateAbort tt; Call HttpEnd tt]) /\
    to_size written <> to_size len /\
    ~ Exists short_write pre /\
    _isUpdating s' = false /\
    _currentBytesRead s' = 0 /\ _totalBytes s' = 0 /\
    _currentPercent s' = 0 /\
    _lastError s' = FLASH_FAILED.
Proof.
  intros Hex.
  destruct (final_entry_ends fuel url s w) as (s' & w' & l & Heq & Hf).
  { eapply Exists_impl; [exact Hex|]. intros e He. now left. }
  rewrite Heq in Hex. cbn [res_log] in Hex.
  destruct Hf as ((Hu & Hb & Ht & Hp) & x & Hstop & Hcase).
  assert (short_write x) as Hx.
  { apply (stops_after_final x l short_write); auto. intros e He. now left. }
  destruct Hcase as [[_ Herr]|[-> _]]; [|contradiction].
  destruct (short_write_inv x Hx) as (len & written & -> & Hne).
  destruct Hstop as (pre & -> & Hq).
  exists s', w', pre, len, written. split; [exact Heq|].
  split; [exact Hne|]. split; [|auto 6].
  intros Hpre. apply (quiet_no_final pre Hq).
  eapply Exists_impl; [exact Hpre|]. intros e He. now left.
Qed.

(** C2: when the test after the copy loop of a run of
    [performHttpFirmwareUpdate] finds the abort flag set, the operation
    is terminal: the flash transaction is aborted, the connection is
    released, nothing else is called (no further attempt), [isUpdating]
    and the three counters are cleared, [lastError] is [UPDATE_ABORTED]
    and the function returns false. *)
Theorem abort_after_copy_is_terminal (fuel : nat) (url : string)
    (s : Session) (w : W) :
  Exists abort_seen
    (res_log (performHttpFirmwareUpdate E http_only fuel url s w)) ->
  exists s' w' pre,
    performHttpFirmwareUpdate E http_only fuel url s w =
      Done false s' w'
        (pre ++ [AbortObserved; Call UpdateAbort tt; Call HttpEnd tt]) /\
    ~ Exists abort_seen pre /\
    _isUpdating s' = false /\
    _currentBytesRead s' = 0 /\ _totalBytes s' = 0 /\
    _currentPercent s' = 0 /\
    _lastError s' = UPDATE_ABORTED.
Proof.
  intros Hex.
  destruct (final_entry_ends fuel url s w) as (s' & w' & l & Heq & Hf).
  { eapply Exists_impl; [exact Hex|]. intros e He. now right. }
  rewrite Heq in Hex. cbn [res_log] in Hex.
  destruct Hf as ((Hu & Hb & Ht & Hp) & x & Hstop & Hcase).
  assert (abort_seen x) as Hx.
  { apply (stops_after_final x l abort_seen); auto. intros e He. now right. }
  unfold abort_seen in Hx. subst x.
  destruct Hcase as [[Hsw _]|[_ Herr]]; [contradiction|].
  destruct Hstop as (pre & -> & Hq).
  exists s', w', pre. split; [exact Heq|]. split; [|auto 6].
  intros Hpre. apply (quiet_no_final pre Hq).
  eapply Exists_impl; [exact Hpre|]. intros e He. now right.
Qed.

(** Whenever [performHttpFirmwareUpdate] returns false, [lastError]
    holds a code other than [NO_ERROR]; the three progress counters are
    zero on return when the URL passed the checks at the entry, and are
    left as they were on entry when it did not. *)
Lemma install_false_cases (fuel : nat) (url : string)
    (s s' : Session) (w w' : W) (l : list Entry) :
  performHttpFirmwareUpdate E http_only fuel url s w = Done false s' w' l ->
  _lastError s' <> NO_ERROR /\
  (url_accepted http_only url = true -> snapshot s' = (0, 0, 0)) /\
  (url_accepted http_only url = false -> snapshot s' = snapshot s).
Proof.
  intros Heq. destruct (url_accepted http_only url) eqn:Hurl.
  - pose proof (install_spec fuel url s w Hurl) as Hwp. unfold wp in Hwp.
    rewrite Heq in Hwp.
    assert (cleared s' /\ _lastError s' <> NO_ERROR) as [Hc Hne].
    { destruct Hwp as [[? _]|[(_ & _ & Hc & Hne)|[_ (Hc & x & _ & Hcase)]]];
        [discriminate|auto|].
      split; [exact Hc|].
      destruct Hcase as [[_ ->]|[_ ->]]; discriminate. }
    split; [exact Hne|]. split; [|discriminate].
    intros _. destruct Hc as (_ & Hb & Ht & Hp).
    unfold snapshot. now rewrite Hb, Ht, Hp.
  - destruct (install_refused fuel url s w Hurl) as (s1 & Heq1 & Herr & Hsnap).
    rewrite Heq1 in Heq. injection Heq as <- _ _.
    split; [rewrite Herr; discriminate|]. split; [discriminate|auto].
Qed.

(** With the counters at zero on entry, a false return finds them at
    zero. *)
Lemma install_false_from_zero (fuel : nat) (url : string)
    (s s' : Session) (w w' : W) (l : list Entry) :
  snapshot s = (0, 0, 0) ->
  performHttpFirmwareUpdate E http_only fuel url s w = Done false s' w' l ->
  _lastError s' <> NO_ERROR /\ snapshot s' = (0, 0, 0).
Proof.
  intros H0 Heq.
  destruct (install_false_cases fuel url s s' w w' l Heq) as (Hne & Ha & Hr).
  split; [exact Hne|].
  destruct (url_accepted http_only url);
    [apply Ha; reflexivity | rewrite Hr; [exact H0 | reflexivity]].
Qed.

(** The check does not write the counters. *)
Lemma checkForUpdate_keeps_counters s w :
  wp (checkForUpdate E http_only)
     (fun _ s' _ _ => snapshot s' = snapshot s) (fun _ _ _ => False) s w.
Proof.
  unfold checkForUpdate. wp_run E. all: reflexivity.
Qed.

(** Every session a caller can hold has its three counters at zero: the
    constructor sets them to zero, the setters, [abortUpdate()] and the
    check do not write them, and every return false of the installer
    past its entry checks clears them. *)
Lemma reachable_counters_zero s :
  reachable E http_only s -> snapshot s = (0, 0, 0).
Proof.
  induction 1 as [ | | | | | | | s w b s' w' l _ IH Heq
                   | fuel s w s' w' l _ IH Heq
                   | fuel url s w s' w' l _ IH Heq ];
    try reflexivity; try exact IHreachable.
  - pose proof (checkForUpdate_keeps_counters s w) as Hk. unfold wp in Hk.
    rewrite Heq in Hk. now rewrite Hk.
  - pose proof (checkForUpdate_keeps_counters s w) as Hk. unfold wp in Hk.
    unfold performUpdate, bind, gets, ret in Heq.
    destruct (checkForUpdate E http_only s w) as [b s1 w1 l1|];
      [|discriminate].
    rewrite IH in Hk. destruct b; cbn [negb] in Heq.
    + destruct (performHttpFirmwareUpdate E http_only fuel (_firmwareUrl s1)
                  s1 w1) as [b2 s2 w2 l2|] eqn:Hi; [|discriminate].
      injection Heq as -> -> _ _.
      exact (proj2 (install_false_from_zero fuel _ s1 s' w1 w2 l2 Hk Hi)).
    + injection Heq as <- _ _. exact Hk.
  - unfold downloadAndInstall in Heq. destruct (isEmpty url).
    + unfold bind, fail, modify, ret in Heq. injection Heq as <- _ _.
      exact IH.
    + exact (proj2 (install_false_from_zero fuel url s s' w w' l IH Heq)).
Qed.

(** C3: whenever [performHttpFirmwareUpdate] returns false, whatever the
    URL, [lastError] holds a code other than [NO_ERROR] and the three
    progress counters are zero on return.  The function is private: it
    runs on the session of a call of [performUpdate] or
    [downloadAndInstall], which is a session a caller can hold. *)
Theorem install_failure_state (fuel : nat) (url : string)
    (s s' : Session) (w w' : W) (l : list Entry) :
  reachable E http_only s ->
  performHttpFirmwareUpdate E http_only fuel url s w = Done false s' w' l ->
  _lastError s' <> NO_ERROR /\ snapshot s' = (0, 0, 0).
Proof.
  intros Hr. apply install_false_from_zero, reachable_counters_zero, Hr.
Qed.

End InstallerProperties.

Lemma attempts_cons (e : Entry) (l : list Entry) :
  attempts (e :: l) = ((if is_begin e then 1 else 0) + attempts l)%nat.
Proof. unfold attempts. cbn [List.filter]. destruct (is_begin e); reflexivity. Qed.

Lemma attempts_app (l1 l2 : list Entry) :
  attempts (l1 ++ l2) = (attempts l1 + attempts l2)%nat.
Proof. unfold attempts. now rewrite List.filter_app, List.length_app. Qed.

Lemma attempts_nil : attempts [] = 0%nat.
Proof. reflexivity. Qed.

Ltac count_attempts :=
  repeat first [ rewrite attempts_app | rewrite attempts_cons
               | rewrite attempts_nil ];
  cbn [is_begin].

Section Unreachable.

Context {W : Type} (E : Env W) (http_only : bool).

Hypothesis begin_fails :
  forall secure url w, fst (handle E (HttpBegin secure url) w) = false.
Hypothesis never_aborted : forall w, abort_called E w = false.

Local Ltac step :=
  lazymatch goal with
  | |- wp (bind _ _) _ _ _ _ => apply wp_bind
  | |- wp (gets _) _ _ _ _ => apply wp_gets
  | |- wp (call _ _) _ _ _ _ => apply wp_call_exact
  | |- wp (fail _ _) _ _ _ _ => apply wp_fail
  | |- wp (ret _) _ _ _ _ => apply wp_ret
  | |- wp (modify _) _ _ _ _ => apply wp_modify
  end;
  cbv beta; fields_in_goal;
  rewrite ?begin_fails, ?never_aborted, ?orb_false_r;
  cbn [negb].

Lemma attempt_unreachable (k : nat) (url : string) s w :
  url_accepted http_only url = true ->
  wp (attempt E http_only k url)
     (fun x s' _ l =>
        x = Retry /\ _retryCount s' = _retryCount s /\
        _abortFlag s' = _abortFlag s /\ attempts l = 1%nat)
     (fun _ _ _ => False) s w.
Proof.
  intros [_ Hurl]%url_accepted_inv. unfold attempt.
  rewrite andb_comm, Hurl. unfold when.
  destruct (startsWith "https://" url); destruct (_validateCert s) eqn:Hv;
    repeat step; rewrite ?Hv; cbn [negb]; repeat step;
    count_attempts; auto.
Qed.

Lemma retry_loop_wraps (k fuel : nat) (url : string) (retryAttempt : Z) s w :
  url_accepted http_only url = true ->
  to_u8 (_retryCount s) = 255 ->
  _abortFlag s = false ->
  0 <= retryAttempt <= 255 ->
  wp (retry_loop E http_only k fuel url retryAttempt)
     (fun _ _ _ _ => False) (fun _ _ l => attempts l = fuel) s w.
Proof.
  intros Hurl. revert retryAttempt s w.
  induction fuel as [|fuel IH]; intros n s w Hrc Hab Hn.
  - apply wp_out_of_fuel. reflexivity.
  - cbn [retry_loop]. repeat step. rewrite Hrc, Hab.
    rewrite (proj2 (Z.leb_le n 255)) by lia. cbn [negb andb]. unfold when.
    destruct (0 <? n); repeat step.
    all: eapply wp_mono;
      [ apply attempt_unreachable; exact Hurl
      | cbv beta; fields_in_goal; intros x s' w' l (-> & Hr & Ha & Hl)
      | intros; contradiction ].
    all: eapply wp_mono;
      [ apply (IH (to_u8 (n + 1)) s' w');
        [ rewrite Hr; exact Hrc | rewrite Ha; exact Hab | apply to_u8_range ]
      | intros; contradiction
      | cbv beta; intros s2 w2 l2 Hl2; count_attempts; lia ].
Qed.

(** C7 fails at [retryCount = 255]: [retryAttempt] is a [uint8_t] and
    wraps from 255 to 0, so against a server that every [http.begin]
    fails to reach, the retry loop never runs out of attempts: whatever
    the fuel, the run is cut short by it, after as many attempts as
    there was fuel. *)
Theorem retry_count_255_never_exhausts (fuel : nat) (url : string) s w :
  url_accepted http_only url = true ->
  to_u8 (_retryCount s) = 255 ->
  exists s' w' l,
    performHttpFirmwareUpdate E http_only fuel url s w = Unfinished s' w' l /\
    attempts l = fuel.
Proof.
  intros Hurl Hrc.
  assert (wp (performHttpFirmwareUpdate E http_only fuel url)
            (fun _ _ _ _ => False) (fun _ _ l => attempts l = fuel) s w) as H.
  { destruct (url_accepted_inv http_only url Hurl) as [H1 H2].
    unfold performHttpFirmwareUpdate. rewrite H1, H2. repeat step.
    eapply wp_mono;
      [ apply retry_loop_wraps; fields; auto; lia
      | intros; contradiction
      | cbv beta; intros; count_attempts; assumption ]. }
  unfold wp in H.
  destruct (performHttpFirmwareUpdate E http_only fuel url s w);
    [contradiction | eauto].
Qed.

End Unreachable.

Lemma retry_count_255_never_exhausts_witness :
  exists s' w' l,
    performHttpFirmwareUpdate (sim dead_server) true 300 "http://x/fw.bin"
      (setRetryCount 255 a_session) 0%nat = Unfinished s' w' l /\
    attempts l = 300%nat.
Proof.
  apply (retry_count_255_never_exhausts (sim dead_server) true);
    [ reflexivity | reflexivity | reflexivity | reflexivity ].
Defined.


(** ** Runs against the scripted world *)

Lemma short_write_is_fatal_witness :
  Exists short_write
    (res_log (performHttpFirmwareUpdate (sim short_flash) true 3
                "http://x/fw.bin" a_session 0%nat)) /\
  exists s' w' pre len written,
    performHttpFirmwareUpdate (sim short_flash) true 3 "http://x/fw.bin"
      a_session 0%nat =
      Done false s' w'
        (pre ++ [Call (UpdateWrite len) written;
                 Call UpdateAbort tt; Call HttpEnd tt]) /\
    _lastError s' = FLASH_FAILED.
Proof.
  assert (Exists short_write
            (res_log (performHttpFirmwareUpdate (sim short_flash) true 3
                        "http://x/fw.bin" a_session 0%nat))) as H.
  { cbn.
    repeat first [ apply Exists_cons_hd; solve [cbn; discriminate]
                 | apply Exists_cons_tl ]. }
  split; [exact H|].
  destruct (short_write_is_fatal (sim short_flash) true 3 "http://x/fw.bin"
              a_session 0%nat H)
    as (s' & w' & pre & len & written & Heq & _ & _ & _ & _ & _ & _ & Herr).
  exists s', w', pre, len, written. split; [exact Heq | exact Herr].
Defined.

Lemma abort_after_copy_is_terminal_witness :
  Exists abort_seen
    (res_log (performHttpFirmwareUpdate (sim aborting_user) true 3
                "http://x/fw.bin" a_session 0%nat)) /\
  exists s' w' pre,
    performHttpFirmwareUpdate (sim aborting_user) true 3 "http://x/fw.bin"
      a_session 0%nat =
      Done false s' w'
        (pre ++ [AbortObserved; Call UpdateAbort tt; Call HttpEnd tt]) /\
    _lastError s' = UPDATE_ABORTED.
Proof.
  assert (Exists abort_seen
            (res_log (performHttpFirmwareUpdate (sim aborting_user) true 3
                        "http://x/fw.bin" a_session 0%nat))) as H.
  { cbn.
    repeat first [ apply Exists_cons_hd; solve [reflexivity]
                 | apply Exists_cons_tl ]. }
  split; [exact H|].
  destruct (abort_after_copy_is_terminal (sim aborting_user) true 3
              "http://x/fw.bin" a_session 0%nat H)
    as (s' & w' & pre & Heq & _ & _ & _ & _ & _ & Herr).
  exists s', w', pre. split; [exact Heq | exact Herr].
Defined.

Lemma install_failure_state_witness :
  reachable (sim dead_server) true (setRetryCount 1 a_session) /\
  exists s' w' l,
    performHttpFirmwareUpdate (sim dead_server) true 5 "http://x/fw.bin"
      (setRetryCount 1 a_session) 0%nat = Done false s' w' l /\
    _lastError s' <> NO_ERROR /\ snapshot s' = (0, 0, 0).
Proof.
  assert (reachable (sim dead_server) true (setRetryCount 1 a_session)) as Hr
    by (apply reach_setRetryCount, reach_new).
  split; [exact Hr|].
  assert (exists s' w' l,
             performHttpFirmwareUpdate (sim dead_server) true 5 "http://x/fw.bin"
               (setRetryCount 1 a_session) 0%nat = Done false s' w' l)
    as (s' & w' & l & Heq) by (vm_compute; eauto).
  exists s', w', l. split; [exact Heq|].
  exact (install_failure_state (sim dead_server) true 5 "http://x/fw.bin"
           (setRetryCount 1 a_session) s' 0%nat w' l Hr Heq).
Defined.

(** ** The number of attempts below [retryCount = 255] *)

Ltac frame_close :=
  fields; repeat match goal with H : _ /\ _ |- _ => destruct H end;
  split; [congruence | count_attempts; lia].

Section Attempts.

Context {W : Type} (E : Env W) (http_only : bool).

Lemma copy_loop_frame (fuel : nat) (hasCL : bool) (cl totalRead : Z) s w :
  wp (copy_loop E fuel hasCL cl totalRead)
     (fun _ s' _ l => frame s s' 0 l) (fun s' _ l => frame s s' 0 l) s w.
Proof.
  unfold frame.
  revert totalRead s w. induction fuel as [|fuel IH]; intros totalRead s w.
  - apply wp_out_of_fuel. split; reflexivity.
  - cbn [copy_loop]. unfold short_write_exit, reportProgress.
    wp_run E.
    all: try (eapply wp_mono; [apply IH| |]; cbv beta; intros).
    all: frame_close.
Qed.

Lemma begin_loop_frame (n : nat) (beginRetries size : Z) s w :
  wp (begin_loop E n beginRetries size)
     (fun _ s' _ l => frame s s' 0 l) (fun _ _ _ => False) s w.
Proof.
  unfold frame. revert beginRetries s w.
  induction n as [|n IH]; intros beginRetries s w; cbn [begin_loop].
  - wp_run E. split; reflexivity.
  - wp_run E.
    all: try (eapply wp_mono; [apply IH| |]; cbv beta; intros;
              try contradiction).
    all: frame_close.
Qed.

Lemma conclude_frame (hasCL : bool) (cl totalRead : Z) s w :
  wp (conclude E hasCL cl totalRead)
     (fun _ s' _ l => frame s s' 0 l) (fun _ _ _ => False) s w.
Proof.
  unfold frame, conclude, reportProgress. wp_run E. all: frame_close.
Qed.

Lemma download_frame (k : nat) s w :
  wp (download E k)
     (fun _ s' _ l => frame s s' 0 l) (fun s' _ l => frame s s' 0 l) s w.
Proof.
  unfold download, reportProgress. wp_run E.
  all: eapply wp_mono; [apply begin_loop_frame| |]; cbv beta;
       [intros | intros; contradiction].
  all: wp_run E.
  all: try (eapply wp_mono; [apply copy_loop_frame| |]; cbv beta; intros).
  all: wp_run E.
  all: try (eapply wp_mono; [apply conclude_frame| |]; cbv beta;
            [intros | intros; contradiction]).
  all: unfold frame in *; frame_close.
Qed.

Lemma attempt_frame (k : nat) (url : string) s w :
  wp (attempt E http_only k url)
     (fun _ s' _ l => frame s s' 1 l) (fun s' _ l => frame s s' 1 l) s w.
Proof.
  unfold attempt. wp_run E.
  all: try (eapply wp_mono; [apply download_frame| |]; cbv beta; intros).
  all: unfold frame in *; frame_close.
Qed.

Lemma retry_loop_frame (k fuel : nat) (url : string) (retryAttempt : Z) s w :
  to_u8 (_retryCount s) < 255 ->
  0 <= retryAttempt ->
  wp (retry_loop E http_only k fuel url retryAttempt)
     (fun _ s' _ l =>
        frame s s' (Z.to_nat (to_u8 (_retryCount s) + 1 - retryAttempt)) l)
     (fun s' _ l =>
        frame s s' (Z.to_nat (to_u8 (_retryCount s) + 1 - retryAttempt)) l)
     s w.
Proof.
  intros Hrc. revert retryAttempt s w Hrc.
  induction fuel as [|fuel IH]; intros n s w Hrc Hn.
  - apply wp_out_of_fuel. split; [reflexivity | cbn; lia].
  - cbn [retry_loop]. wp_run E.
    all: try (eapply wp_mono; [apply attempt_frame| |]; cbv beta; intros;
              wp_run E).
    all: try (eapply wp_mono;
              [ apply (IH (to_u8 (n + 1)));
                [ unfold frame in *; fields;
                  repeat match goal with H : _ /\ _ |- _ => destruct H end;
                  congruence
                | apply to_u8_range ]
              | | ]; cbv beta; intros).
    all: apply andb_true_iff in Hc as [Hle _] || clear Hc.
    all: try apply Z.leb_le in Hle.
    all: unfold frame in *; fields;
         repeat match goal with H : _ /\ _ |- _ => destruct H end.
    all: try (assert (to_u8 (n + 1) = n + 1) as Hwrap
                by (unfold to_u8 in *; rewrite Z.mod_small; lia)).
    all: split; [congruence | count_attempts].
    all: repeat match goal with
           | H : _retryCount _ = _retryCount _ |- _ =>
               rewrite H in *; clear H
           end.
    all: try rewrite Hwrap in *; lia.
Qed.

(** X19: with a retry count below 255 the loop makes at most
    [retryCount + 1] attempts, in every run and at every point of it. *)
Lemma attempts_bounded (fuel : nat) (url : string) s w :
  to_u8 (_retryCount s) < 255 ->
  (attempts (res_log (performHttpFirmwareUpdate E http_only fuel url s w))
   <= Z.to_nat (to_u8 (_retryCount s) + 1))%nat.
Proof.
  intros Hrc.
  assert (wp (performHttpFirmwareUpdate E http_only fuel url)
            (fun _ s' _ l => frame s s' (Z.to_nat (to_u8 (_retryCount s) + 1)) l)
            (fun s' _ l => frame s s' (Z.to_nat (to_u8 (_retryCount s) + 1)) l)
            s w) as H.
  { unfold performHttpFirmwareUpdate. wp_run E.
    all: try (eapply wp_mono;
              [ apply retry_loop_frame; [fields; exact Hrc | lia] | | ];
              cbv beta; intros; wp_run E).
    all: unfold frame in *; fields;
         repeat match goal with H : _ /\ _ |- _ => destruct H end.
    all: split; [congruence | count_attempts].
    all: try (replace (to_u8 (_retryCount s) + 1 - 0)
                with (to_u8 (_retryCount s) + 1) in * by lia).
    all: lia. }
  unfold wp in H.
  destruct (performHttpFirmwareUpdate E http_only fuel url s w);
    cbn [res_log]; apply H.
Qed.

End Attempts.


(* ===================================================================== *)
(** * Further properties of the code *)
(* ===================================================================== *)

(** ** The version parser *)

Lemma append_nil (t : string) : "" ++ t = t.
Proof. reflexivity. Qed.

Lemma append_cons (c : ascii) (r t : string) :
  String c r ++ t = String c (r ++ t).
Proof. reflexivity. Qed.

Lemma digits_app_stop (u t : string) (acc : Z) :
  no_leading_digit t = true -> digits acc (u ++ t) = digits acc u.
Proof.
  intros Ht. revert acc.
  induction u as [|c r IH]; intros acc;
    rewrite ?append_nil, ?append_cons; cbn [digits].
  - destruct t as [|c t]; [reflexivity|]. cbn [no_leading_digit digits] in *.
    apply negb_true_iff in Ht. now rewrite Ht.
  - destruct (isdigit c); [apply IH | reflexivity].
Qed.

Lemma atoi_app_stop (u t : string) :
  skip_space u <> "" -> no_leading_digit t = true -> atoi (u ++ t) = atoi u.
Proof.
  intros Hu Ht. unfold atoi. f_equal.
  induction u as [|c r IH]; [contradiction|].
  rewrite append_cons. cbn [skip_space] in *.
  destruct (isspace c); [now apply IH|].
  unfold signed_digits.
  pose proof (digits_app_stop (String c r) t 0 Ht) as Hall.
  rewrite append_cons in Hall.
  destruct (char_code c =? 45); [now rewrite digits_app_stop|].
  destruct (char_code c =? 43); [now rewrite digits_app_stop|].
  exact Hall.
Qed.

Lemma strchr_dot_app (u t p : string) :
  strchr_dot u = Some p -> strchr_dot (u ++ t) = Some (p ++ t).
Proof.
  induction u as [|c r IH]; [discriminate|].
  rewrite append_cons. cbn [strchr_dot].
  destruct (is_dot c); [now intros [= ->] | exact IH].
Qed.

(** X1: what follows a complete [x.y.z] is not read.  When a version
    string has two dots and something other than white space after the
    second, text appended to it that does not begin with a digit (a
    fourth component, a pre-release tag, a blank) leaves the three
    components as they are. *)
Theorem parseVersion_suffix_ignored (u t p1 p2 : string) :
  strchr_dot u = Some p1 ->
  strchr_dot p1 = Some p2 ->
  skip_space p2 <> "" ->
  no_leading_digit t = true ->
  parseVersion (u ++ t) = parseVersion u.
Proof.
  intros H1 H2 Hp2 Ht. unfold parseVersion.
  assert (isEmpty u = false) as Hu by (destruct u; [discriminate H1 | reflexivity]).
  assert (isEmpty (u ++ t) = false) as Hut by (destruct u; [discriminate H1 | reflexivity]).
  rewrite Hu, Hut, (strchr_dot_app u t p1 H1), H1.
  rewrite (strchr_dot_app p1 t p2 H2), H2.
  rewrite (atoi_app_stop p2 t Hp2 Ht).
  rewrite <- (atoi_cut (u ++ t)), <- (atoi_cut u).
  rewrite <- (atoi_cut (p1 ++ t)), <- (atoi_cut p1).
  assert (forall v q, strchr_dot v = Some q -> cut_dot (v ++ t) = cut_dot v) as Hcut.
  { induction v as [|c r IH]; [discriminate|].
    intros q. rewrite append_cons. cbn [cut_dot strchr_dot].
    destruct (is_dot c); [reflexivity|].
    intros Hq. f_equal. now apply (IH q). }
  now rewrite (Hcut u p1 H1), (Hcut p1 p2 H2).
Qed.

Lemma parseVersion_suffix_ignored_witness :
  parseVersion ("1.2.3" ++ "-beta.4") = parseVersion "1.2.3".
Proof.
  apply (parseVersion_suffix_ignored "1.2.3" "-beta.4" "2.3" "3");
    [reflexivity | reflexivity | discriminate | reflexivity].
Defined.

(** X2: a version string that begins with text (a letter, as in
    [v1.2.3]) has major component 0, whatever digits follow. *)
Theorem parseVersion_text_prefix (s : string) :
  starts_with_text s = true -> nth 0 (parseVersion s) 0 = 0.
Proof.
  destruct s as [|c r]; [discriminate|]. cbn [starts_with_text].
  intros H. repeat (apply andb_true_iff in H as [H ?]).
  apply negb_true_iff in H, H0, H1, H2.
  assert (atoi (String c r) = 0) as Ha.
  { unfold atoi. cbn [skip_space]. rewrite H. unfold signed_digits.
    rewrite H1, H0. cbn [digits]. now rewrite H2. }
  unfold parseVersion. cbn [isEmpty]. rewrite Ha.
  destruct (strchr_dot (String c r)) as [p1|]; [|reflexivity].
  destruct (strchr_dot p1); reflexivity.
Qed.

Lemma parseVersion_text_prefix_witness :
  nth 0 (parseVersion "v1.2.3") 0 = 0 /\ cmpVersion "v1.2.3" "0.9.0" < 0.
Proof.
  split; [exact (parseVersion_text_prefix "v1.2.3" eq_refl) | reflexivity].
Defined.

Lemma lex_lt_trans (x y z : list Z) : lex_lt x y -> lex_lt y z -> lex_lt x z.
Proof. unfold lex_lt. lia. Qed.

Lemma lex_lt_asym (x y : list Z) : lex_lt x y -> ~ lex_lt y x.
Proof. unfold lex_lt. lia. Qed.

(** X3: on version strings whose components are not negative,
    [cmpVersion] is an order: swapping the arguments swaps the sign, and
    "not newer" is transitive. *)
Theorem cmpVersion_order (a b c : string) :
  Forall (fun v => 0 <= v) (components_spec a) ->
  Forall (fun v => 0 <= v) (components_spec b) ->
  Forall (fun v => 0 <= v) (components_spec c) ->
  (cmpVersion a b < 0 <-> 0 < cmpVersion b a) /\
  (cmpVersion a b = 0 <-> cmpVersion b a = 0) /\
  (cmpVersion a b <= 0 -> cmpVersion b c <= 0 -> cmpVersion a c <= 0) /\
  (cmpVersion a b <= 0 -> cmpVersion b c < 0 -> cmpVersion a c < 0).
Proof.
  intros Ha Hb Hc.
  destruct (cmpVersion_sign a b Ha Hb) as (Lab & Eab & Gab).
  destruct (cmpVersion_sign b a Hb Ha) as (Lba & Eba & Gba).
  destruct (cmpVersion_sign b c Hb Hc) as (Lbc & Ebc & Gbc).
  destruct (cmpVersion_sign a c Ha Hc) as (Lac & Eac & Gac).
  split; [rewrite Lab, Gba; tauto|].
  split; [rewrite Eab, Eba; split; congruence|].
  assert (cmpVersion a b <= 0 -> cmpVersion b c <= 0 ->
          (cmpVersion a c < 0 /\ (cmpVersion b c < 0 -> True)) \/
          (cmpVersion a c = 0 /\ cmpVersion b c = 0)) as Hcases.
  { intros H1 H2.
    destruct (Z.eq_dec (cmpVersion a b) 0) as [E1|N1];
      destruct (Z.eq_dec (cmpVersion b c) 0) as [E2|N2].
    - right. split; [|exact E2]. apply Eac.
      apply Eab in E1. apply Ebc in E2. congruence.
    - left. split; [|auto]. apply Lac. apply Eab in E1. rewrite E1.
      apply Lbc. lia.
    - left. split; [|auto]. apply Lac. apply Ebc in E2. rewrite <- E2.
      apply Lab. lia.
    - left. split; [|auto]. apply Lac.
      apply (lex_lt_trans _ (components_spec b)); [apply Lab | apply Lbc]; lia. }
  split.
  - intros H1 H2. destruct (Hcases H1 H2) as [[H _]|[H _]]; lia.
  - intros H1 H2. destruct (Hcases H1 ltac:(lia)) as [[H _]|[_ H]]; lia.
Qed.

Lemma cmpVersion_order_witness :
  cmpVersion "1.2.3" "1.10.0" < 0 /\ 0 < cmpVersion "1.10.0" "1.2.3" /\
  cmpVersion "1.2.3" "2.0.0" < 0.
Proof.
  assert (forall x, In x ["1.2.3"; "1.10.0"; "2.0.0"] ->
                    Forall (fun v => 0 <= v) (components_spec x)) as H.
  { intros x Hx. eapply Forall_impl; [apply components_no_minus|].
    - cbn in Hx. intuition (subst; reflexivity).
    - cbn. intros; lia. }
  destruct (cmpVersion_order "1.2.3" "1.10.0" "2.0.0") as (H1 & _ & _ & H4);
    try (apply H; cbn; tauto).
  assert (cmpVersion "1.2.3" "1.10.0" < 0) as Hlt by reflexivity.
  split; [exact Hlt|]. split; [now apply H1|].
  apply H4; [lia | reflexivity].
Defined.

(** ** The error text *)

Lemma c_str_substring (n : nat) (m : string) :
  c_str (substring 0 n (c_str m)) = substring 0 n (c_str m).
Proof.
  revert n. induction m as [|c r IH]; intros n; cbn [c_str].
  - destruct n; reflexivity.
  - destruct (is_nul c) eqn:Hc; [destruct n; reflexivity|].
    destruct n; [reflexivity|]. cbn [substring c_str]. now rewrite Hc, IH.
Qed.

Lemma substring_short (n : nat) (m : string) :
  (String.length m <= n)%nat -> substring 0 n m = m.
Proof.
  revert n. induction m as [|c r IH]; intros n H.
  - destruct n; reflexivity.
  - destruct n; cbn in H; [lia|]. cbn [substring]. f_equal. apply IH. lia.
Qed.

Lemma substring_length_le (n : nat) (m : string) :
  (String.length (substring 0 n m) <= n)%nat.
Proof.
  revert n. induction m as [|c r IH]; intros n.
  - destruct n; cbn; lia.
  - destruct n; cbn [substring String.length]; [lia|]. specialize (IH n). lia.
Qed.

(** X4: the text of an error comes back as it was recorded.  After
    [setError(error, message)], [getLastErrorString()] is the message cut
    to the 63 characters the buffer holds (the message itself when it is
    no longer than that), and the text of the table for [error] when the
    message is empty or absent. *)
Theorem error_text_round_trip (error : UpdateError) (msg : string) (s : Session) :
  getLastErrorString (setError error (Some msg) s) =
    (if isEmpty (c_str msg) then ERROR_MESSAGES error
     else substring 0 63 (c_str msg)) /\
  (String.length (getLastErrorString (setError error (Some msg) s)) <= 63
   \/ isEmpty (c_str msg) = true)%nat /\
  ((0 < String.length (c_str msg) <= 63)%nat ->
   getLastErrorString (setError error (Some msg) s) = c_str msg) /\
  getLastErrorString (setError error None s) = ERROR_MESSAGES error.
Proof.
  assert (getLastErrorString (setError error (Some msg) s) =
          (if isEmpty (c_str msg) then ERROR_MESSAGES error
           else substring 0 63 (c_str msg))) as H.
  { unfold getLastErrorString. cbn [setError]. fields.
    rewrite c_str_substring.
    destruct (c_str msg) as [|c r]; reflexivity. }
  split; [exact H|]. split; [|split; [|reflexivity]].
  - rewrite H. destruct (isEmpty (c_str msg)); [now right|left].
    apply substring_length_le.
  - intros [Hpos Hlen]. rewrite H.
    destruct (c_str msg) as [|c r] eqn:Hm; [cbn in Hpos; lia|].
    cbn [isEmpty]. apply substring_short. exact Hlen.
Qed.

Lemma error_text_round_trip_witness :
  getLastErrorString (setError HTTP_ERROR (Some "status 404") a_session)
  = "status 404".
Proof.
  destruct (error_text_round_trip HTTP_ERROR "status 404" a_session)
    as (_ & _ & H & _).
  apply H. change (0 < 10 <= 63)%nat. lia.
Defined.

(** ** More on the checker *)

Ltac subst_answers :=
  repeat match goal with
    | H : ?r = true |- _ => is_var r; subst r
    | H : ?r = false |- _ => is_var r; subst r
    | H : ?r = Some _ |- _ => is_var r; subst r
    | H : ?r = None |- _ => is_var r; subst r
    end.


Section CheckerDiagnosis.

Context {W : Type} (E : Env W) (http_only : bool).


End CheckerDiagnosis.

(** ** Runs side by side *)

Section Relational.

Context {W : Type} (E : Env W) (R : Session -> Session -> Prop).

Lemma rel_bind {A B} (f : M W A) (g : A -> M W B) :
  rel R f -> (forall a, rel R (g a)) -> rel R (bind f g).
Proof.
  intros Hf Hg s1 s2 w HR. unfold bind. specialize (Hf s1 s2 w HR).
  destruct (f s1 w) as [a1 t1 w1 l1|t1 w1 l1],
           (f s2 w) as [a2 t2 w2 l2|t2 w2 l2]; try contradiction.
  - destruct Hf as (-> & -> & -> & HR1).
    specialize (Hg a2 t1 t2 w2 HR1).
    destruct (g a2 t1 w2), (g a2 t2 w2); try contradiction.
    + destruct Hg as (-> & -> & -> & HR2). auto.
    + destruct Hg as (-> & -> & HR2). auto.
  - exact Hf.
Qed.

Lemma rel_ret {A} (a : A) : rel R (@ret W A a).
Proof. intros s1 s2 w HR. cbn. auto. Qed.

Lemma rel_modify (f : Session -> Session) :
  (forall s1 s2, R s1 s2 -> R (f s1) (f s2)) -> rel R (@modify W f).
Proof. intros H s1 s2 w HR. cbn. auto. Qed.

Lemma rel_gets {A} (f : Session -> A) :
  (forall s1 s2, R s1 s2 -> f s1 = f s2) -> rel R (@gets W A f).
Proof. intros H s1 s2 w HR. cbn. auto. Qed.

Lemma rel_call {T} (e : Ext T) :
  (forall s1 s2 b,
      R s1 s2 ->
      R (set_abortFlag (_abortFlag s1 || b) s1)
        (set_abortFlag (_abortFlag s2 || b) s2)) ->
  (forall s1 s2, R s1 s2 -> _abortFlag s1 = _abortFlag s2) ->
  rel R (call E e).
Proof.
  intros H Hab s1 s2 w HR. unfold call. cbv zeta.
  repeat split; auto.
Qed.

End Relational.

Ltac rel_side :=
  unfold check_rel, same_check_input; intros; fields;
  intuition congruence.

Ltac rel_step E :=
  lazymatch goal with
  | |- rel _ (bind _ _) => apply rel_bind; [|intros ?]
  | |- rel _ (ret _) => apply rel_ret
  | |- rel _ (modify _) => apply rel_modify; rel_side
  | |- rel _ (fail _ _) => apply rel_modify; rel_side
  | |- rel _ (gets _) => apply rel_gets; rel_side
  | |- rel _ (call _ _) => apply (rel_call E); rel_side
  | |- rel _ (when ?b _) => unfold when at 1
  | |- rel _ (if ?b then _ else _) => destruct b
  | |- rel _ (match ?x with _ => _ end) => destruct x
  end.

Section CheckerForgets.

Context {W : Type} (E : Env W) (http_only : bool).

Lemma checkForUpdate_rel : rel check_rel (checkForUpdate E http_only).
Proof. unfold checkForUpdate. repeat rel_step E. Qed.

Lemma checkForUpdate_reset (s : Session) (w : W) :
  checkForUpdate E http_only s w = checkForUpdate E http_only (check_reset s) w.
Proof. reflexivity. Qed.

(** X6: a check starts from scratch.  What [checkForUpdate] returns and
    leaves (result, calls made, cached version, URL and notes, error and
    detail, abort flag) depends on the session only through the current
    version, the manifest URL, the timeout and the certificate flag: a
    stale error, a cached manifest or a pending abort request of an
    earlier operation changes nothing. *)
Theorem checkForUpdate_forgets (s1 s2 : Session) (w : W) :
  same_check_input s1 s2 ->
  checker_view (checkForUpdate E http_only s1 w) =
  checker_view (checkForUpdate E http_only s2 w).
Proof.
  intros Hin.
  rewrite (checkForUpdate_reset s1), (checkForUpdate_reset s2).
  assert (check_rel (check_reset s1) (check_reset s2)) as HR.
  { unfold check_rel, check_reset, same_check_input in *. fields. tauto. }
  pose proof (checkForUpdate_rel _ _ w HR) as H.
  destruct (checkForUpdate E http_only (check_reset s1) w),
           (checkForUpdate E http_only (check_reset s2) w); try contradiction.
  - destruct H as (-> & -> & -> & (_ & H1 & H2 & H3 & H4 & H5 & H6)).
    cbn [checker_view]. now rewrite H1, H2, H3, H4, H5, H6.
  - reflexivity.
Qed.

End CheckerForgets.

Lemma checkForUpdate_forgets_witness :
  checker_view (checkForUpdate (sim good_server) true
                  (abortUpdate (setError FLASH_FAILED (Some "old") a_session))
                  0%nat) =
  checker_view (checkForUpdate (sim good_server) true a_session 0%nat).
Proof.
  apply (checkForUpdate_forgets (sim good_server) true).
  repeat split.
Defined.

(** ** The order of the calls *)

Lemma obeys_app ho url q l1 q1 l2 q2 :
  obeys ho url q l1 q1 -> obeys ho url q1 l2 q2 -> obeys ho url q (l1 ++ l2) q2.
Proof.
  revert q. induction l1 as [|e l1 IH]; intros q; cbn [obeys app].
  - now intros ->.
  - intros [Ha H1] H2. split; [exact Ha | now apply IH].
Qed.

Lemma obeys_cons ho url q e l q' :
  allowed ho url q e -> obeys ho url (next q e) l q' -> obeys ho url q (e :: l) q'.
Proof. intros. split; assumption. Qed.

Lemma obeys_allowed ho url q l q' :
  obeys ho url q l q' -> Forall (fun e => exists q0, allowed ho url q0 e) l.
Proof.
  revert q. induction l as [|e l IH]; intros q; cbn [obeys]; [constructor|].
  intros [Ha H]. constructor; [now exists q | now apply (IH _ H)].
Qed.

Lemma toRead_bound (x : Z) :
  0 <= (if BUF_SIZE <? to_size x then BUF_SIZE else to_size x) <= BUF_SIZE.
Proof.
  unfold BUF_SIZE, to_size. pose proof (Z.mod_pos_bound x 4294967296).
  destruct (Z.ltb_spec 1024 (x mod 4294967296)); lia.
Qed.

Lemma percent_bound (c : bool) (x : Z) :
  0 <= (if c then constrain x 0 100 else 0) <= 100.
Proof.
  destruct c; [|lia]. unfold constrain.
  destruct (Z.ltb_spec x 0); [lia|]. destruct (Z.ltb_spec 100 x); lia.
Qed.

Lemma to_int_range (x : Z) : INT_MIN <= to_int x <= INT_MAX.
Proof.
  unfold to_int, INT_MIN, INT_MAX.
  pose proof (Z.mod_pos_bound (x + 2147483648) 4294967296). lia.
Qed.

Lemma begin_size_bound (r : Z) :
  0 < (if 0 <? to_int r then to_size (to_int r)
       else to_size (to_int UPDATE_SIZE_UNKNOWN)) <= UPDATE_SIZE_UNKNOWN.
Proof.
  pose proof (to_int_range r) as Hr. unfold INT_MIN, INT_MAX in Hr.
  destruct (Z.ltb_spec 0 (to_int r)).
  - unfold to_size, UPDATE_SIZE_UNKNOWN. rewrite Z.mod_small; lia.
  - change (0 < 4294967295 <= 4294967295). lia.
Qed.

Lemma write_len_bound (r : Z) : (to_int r <=? 0) = false -> 0 < to_int r <= INT_MAX.
Proof. intros H%Z.leb_gt. pose proof (to_int_range r). lia. Qed.

(** One call allowed where the run stands. *)
Ltac allowed_here :=
  split; [reflexivity|];
  cbn [conn flash restarted at_rest connected flashing rebooting];
  repeat match goal with |- _ /\ _ => split end;
  first [ reflexivity
        | exact I
        | assumption
        | symmetry; assumption
        | apply toRead_bound
        | apply percent_bound
        | apply begin_size_bound
        | apply write_len_bound; assumption
        | intros; congruence
        | lia
        | idtac ].

(** A log written out, with the logs of the parts where they occur. *)
Ltac obeys_log :=
  repeat first
    [ eassumption
    | reflexivity
    | apply obeys_cons;
      [ allowed_here
      | cbn [next conn flash restarted negb
                  at_rest connected flashing rebooting] ]
    | eapply obeys_app; [eassumption|] ].

Section Protocol.

Context {W : Type} (E : Env W) (http_only : bool) (url : string).

Lemma begin_loop_proto (n : nat) (beginRetries size : Z) s w :
  0 < size <= UPDATE_SIZE_UNKNOWN ->
  wp (begin_loop E n beginRetries size)
     (fun ok _ _ l => obeys http_only url connected l (if ok then flashing else connected))
     (fun _ _ _ => False) s w.
Proof.
  intros Hsize. revert beginRetries s w.
  induction n as [|n IH]; intros beginRetries s w; cbn [begin_loop].
  - wp_run E. reflexivity.
  - wp_run E.
    all: try (eapply wp_mono; [apply IH| |]; cbv beta; intros;
              try contradiction).
    all: subst_answers; unfold at_rest, connected, flashing in *; obeys_log.
Qed.

Lemma copy_loop_proto (fuel : nat) (hasCL : bool) (cl totalRead : Z) s w :
  wp (copy_loop E fuel hasCL cl totalRead)
     (fun x _ _ l =>
        obeys http_only url flashing l
          (match x with CopyEnded _ => flashing | CopyFatal => at_rest end))
     (fun _ _ l => obeys http_only url flashing l flashing) s w.
Proof.
  revert totalRead s w. induction fuel as [|fuel IH]; intros totalRead s w.
  - apply wp_out_of_fuel. reflexivity.
  - cbn [copy_loop]. unfold short_write_exit, reportProgress.
    wp_run E.
    all: try (eapply wp_mono; [apply IH| |]; cbv beta; intros).
    all: flip_tests; subst_answers.
    all: unfold at_rest, connected, flashing in *; obeys_log.
Qed.

Lemma conclude_proto (hasCL : bool) (cl totalRead : Z) s w :
  wp (conclude E hasCL cl totalRead)
     (fun _ _ _ l => obeys http_only url flashing l at_rest)
     (fun _ _ _ => False) s w.
Proof.
  unfold conclude, reportProgress. wp_run E.
  all: flip_tests; subst_answers.
  all: unfold at_rest, connected, flashing in *; obeys_log.
Qed.

Lemma download_proto (k : nat) s w :
  wp (download E k)
     (fun _ _ _ l => obeys http_only url connected l at_rest)
     (fun _ _ l => obeys http_only url connected l flashing) s w.
Proof.
  unfold download, reportProgress. wp_run E.
  all: eapply wp_mono; [apply begin_loop_proto, begin_size_bound| |];
       cbv beta; [intros | intros; contradiction].
  all: wp_run E.
  all: try (eapply wp_mono; [apply copy_loop_proto| |]; cbv beta; intros).
  all: wp_run E.
  all: try (eapply wp_mono; [apply conclude_proto| |]; cbv beta;
            [intros | intros; contradiction]).
  all: flip_tests; subst_answers.
  all: unfold at_rest, connected, flashing in *; obeys_log.
Qed.

Lemma attempt_proto (k : nat) s w :
  wp (attempt E http_only k url)
     (fun _ _ _ l => obeys http_only url at_rest l at_rest)
     (fun _ _ l => obeys http_only url at_rest l flashing) s w.
Proof.
  unfold attempt. wp_run E.
  all: try (eapply wp_mono; [apply download_proto| |]; cbv beta; intros).
  all: flip_tests; subst_answers.
  all: repeat match goal with
         | H : _ && _ = false |- _ => cbn [andb] in H
         end.
  all: unfold at_rest, connected, flashing in *; obeys_log.
Qed.

Lemma retry_loop_proto (k fuel : nat) (retryAttempt : Z) s w :
  wp (retry_loop E http_only k fuel url retryAttempt)
     (fun x _ _ l => x <> Returned true /\
                     obeys http_only url at_rest l at_rest)
     (fun _ _ l => obeys http_only url at_rest l at_rest \/
                   obeys http_only url at_rest l flashing) s w.
Proof.
  revert retryAttempt s w.
  induction fuel as [|fuel IH]; intros retryAttempt s w.
  - apply wp_out_of_fuel. left. reflexivity.
  - cbn [retry_loop]. wp_run E.
    all: try (eapply wp_mono; [apply attempt_proto| |]; cbv beta; intros;
              wp_run E).
    all: try (eapply wp_mono; [apply IH| |]; cbv beta; intros).
    all: repeat match goal with
           | H : _ \/ _ |- _ => destruct H
           | H : _ /\ _ |- _ => destruct H
           | |- _ /\ _ => split; [try assumption; try discriminate|]
           end.
    all: try (unfold at_rest, connected, flashing in *; obeys_log; fail).
    all: first [ left; unfold at_rest, connected, flashing in *;
                 obeys_log; fail
               | right; unfold at_rest, connected, flashing in *;
                 obeys_log; fail ].
Qed.

Lemma install_proto (fuel : nat) s w :
  wp (performHttpFirmwareUpdate E http_only fuel url)
     (fun b _ _ l =>
        obeys http_only url at_rest l (if b then rebooting else at_rest))
     (fun _ _ l => obeys http_only url at_rest l at_rest \/
                   obeys http_only url at_rest l flashing) s w.
Proof.
  unfold performHttpFirmwareUpdate. wp_run E.
  all: try (eapply wp_mono; [apply retry_loop_proto| |]; cbv beta; intros;
            wp_run E).
  all: repeat match goal with
         | H : _ \/ _ |- _ => destruct H
         | H : _ /\ _ |- _ => destruct H
         | b : bool |- _ => destruct b; [congruence|]
         end.
  all: try (unfold at_rest, connected, flashing, rebooting in *;
            obeys_log; fail).
  all: first [ left; unfold at_rest, connected, flashing in *;
               obeys_log; fail
             | right; unfold at_rest, connected, flashing in *;
               obeys_log; fail ].
Qed.

End Protocol.

Section CheckerProtocol.

Context {W : Type} (E : Env W) (http_only : bool).

Lemma checkForUpdate_proto s w :
  wp (checkForUpdate E http_only)
     (fun _ _ _ l => obeys http_only (_githubUrl s) at_rest l at_rest)
     (fun _ _ _ => False) s w.
Proof.
  unfold checkForUpdate. wp_run E.
  all: flip_tests; subst_answers.
  all: repeat match goal with
         | H : _ && _ = false |- _ => cbn [andb] in H; try rewrite andb_true_r in H
         end.
  all: unfold at_rest, connected, flashing in *; obeys_log.
Qed.

(** The checker calls the HTTP client and the JSON reader only. *)
Lemma checkForUpdate_no_flash s w :
  wp (checkForUpdate E http_only)
     (fun _ _ _ l => Forall (fun e => touches_flash e = false) l)
     (fun _ _ _ => False) s w.
Proof.
  unfold checkForUpdate. wp_run E.
  all: repeat constructor.
Qed.

End CheckerProtocol.

Lemma obeys_forall ho url (P : Entry -> Prop) :
  (forall q e, allowed ho url q e -> P e) ->
  forall l q q', obeys ho url q l q' -> Forall P l.
Proof.
  intros HP l. induction l as [|e l IH]; intros q q'; cbn [obeys];
    [constructor|].
  intros [Ha H]. constructor; [exact (HP q e Ha) | exact (IH _ _ H)].
Qed.

Lemma next_restarted q e :
  restarted (next q e) = restarted q || is_restart e.
Proof.
  destruct e as [T x r|]; [destruct x|]; cbn;
    rewrite ?orb_false_r, ?orb_true_r; reflexivity.
Qed.

Lemma obeys_restarted ho url l :
  forall q q', obeys ho url q l q' ->
               restarted q' = restarted q || existsb is_restart l.
Proof.
  induction l as [|e l IH]; intros q q'; cbn [obeys existsb].
  - intros ->. now rewrite orb_false_r.
  - intros [_ H]. rewrite (IH _ _ H), next_restarted, orb_assoc. reflexivity.
Qed.

Lemma obeys_restart_last ho url pre e post :
  forall q q', obeys ho url q (pre ++ e :: post) q' ->
               is_restart e = true -> post = [].
Proof.
  induction pre as [|x pre IH]; intros q q'; cbn [app obeys].
  - intros [_ H] He. destruct post as [|y post]; [reflexivity|].
    cbn [obeys] in H. destruct H as [[Hr _] _].
    rewrite next_restarted, He, orb_true_r in Hr. discriminate.
  - intros [_ H]. exact (IH _ _ H).
Qed.

Lemma allowed_read ho url q e n :
  allowed ho url q e -> read_size e = Some n -> 0 <= n <= BUF_SIZE.
Proof.
  destruct e as [T x r|]; [destruct x|]; cbn; try discriminate.
  intros (_ & _ & H) [= <-]. exact H.
Qed.

Lemma allowed_percent ho url q e p :
  allowed ho url q e -> reported_percent e = Some p -> 0 <= p <= 100.
Proof.
  destruct e as [T x r|]; [destruct x|]; cbn; try discriminate.
  intros (_ & H) [= <-]. exact H.
Qed.

Lemma allowed_http_only url q e : allowed true url q e -> is_secure e = false.
Proof.
  destruct e as [T x r|]; [destruct x|]; cbn; try reflexivity.
  - intros (_ & H). discriminate.
  - intros (_ & _ & _ & _ & H). now apply H.
Qed.

Section CallOrder.

Context {W : Type} (E : Env W) (http_only : bool).

Lemma install_obeys (fuel : nat) (url : string) s w :
  exists q,
    obeys http_only url at_rest
      (res_log (performHttpFirmwareUpdate E http_only fuel url s w)) q.
Proof.
  pose proof (install_proto E http_only url fuel s w) as H. unfold wp in H.
  destruct (performHttpFirmwareUpdate E http_only fuel url s w);
    cbn [res_log]; [eauto | destruct H; eauto].
Qed.

Lemma checkForUpdate_obeys s w :
  exists q,
    obeys http_only (_githubUrl s) at_rest
      (res_log (checkForUpdate E http_only s w)) q.
Proof.
  pose proof (checkForUpdate_proto E http_only s w) as H. unfold wp in H.
  destruct (checkForUpdate E http_only s w); cbn [res_log];
    [eauto | contradiction].
Qed.

(** X7: every run of [performHttpFirmwareUpdate] keeps to the order of
    calls its collaborators rely on.  A connection is begun when none is
    open, to the URL given, with the secure client exactly for an HTTPS
    URL; the request, the size, the reads and the end of a connection
    happen on an open connection; a flash transaction is begun on an
    open connection when none is open, and written to and ended while it
    is open; the restart is requested with nothing open, and nothing is
    called after it.  When the function returns false the connection is
    released and no flash transaction is open; when it returns true the
    restart has been requested.  A run cut short by the fuel stands at
    the head of the retry loop with nothing open, or in the copy loop. *)
Theorem install_call_order (fuel : nat) (url : string) s w :
  match performHttpFirmwareUpdate E http_only fuel url s w with
  | Done b _ _ l =>
      obeys http_only url at_rest l (if b then rebooting else at_rest)
  | Unfinished _ _ l =>
      obeys http_only url at_rest l at_rest \/
      obeys http_only url at_rest l flashing
  end.
Proof. exact (install_proto E http_only url fuel s w). Qed.

(** X8: [checkForUpdate] always returns; it begins one connection at
    most, to [githubUrl], asks and reads on it only after [http.begin]
    succeeded, has released it when it returns, whatever the result, and
    calls neither the flash updater nor the restart. *)
Theorem checkForUpdate_call_order s w :
  exists b s' w' l,
    checkForUpdate E http_only s w = Done b s' w' l /\
    obeys http_only (_githubUrl s) at_rest l at_rest /\
    (attempts l <= 1)%nat /\
    Forall (fun e => touches_flash e = false) l.
Proof.
  pose proof (checkForUpdate_proto E http_only s w) as H1.
  pose proof (checkForUpdate_no_flash E http_only s w) as H2.
  assert (wp (checkForUpdate E http_only)
            (fun _ _ _ l => (attempts l <= 1)%nat) (fun _ _ _ => False) s w)
    as H3.
  { unfold checkForUpdate. wp_run E. all: cbn; lia. }
  unfold wp in H1, H2, H3.
  destruct (checkForUpdate E http_only s w) as [b s' w' l|]; [|contradiction].
  exists b, s', w', l. auto.
Qed.

(** X9: every read of the stream in a run of
    [performHttpFirmwareUpdate] asks for at most the 1024 bytes of the
    buffer it reads into, and for no negative count. *)
Theorem reads_fit_the_buffer (fuel : nat) (url : string) s w :
  Forall (fun e => forall n, read_size e = Some n -> 0 <= n <= BUF_SIZE)
    (res_log (performHttpFirmwareUpdate E http_only fuel url s w)).
Proof.
  destruct (install_obeys fuel url s w) as [q H].
  eapply obeys_forall; [|exact H]. intros q0 e Ha n Hn. exact (allowed_read _ _ _ _ _ Ha Hn).
Qed.

(** X10: every percentage handed to the progress callback in a run of
    [performHttpFirmwareUpdate] lies between 0 and 100. *)
Theorem reported_percent_in_range (fuel : nat) (url : string) s w :
  Forall (fun e => forall p, reported_percent e = Some p -> 0 <= p <= 100)
    (res_log (performHttpFirmwareUpdate E http_only fuel url s w)).
Proof.
  destruct (install_obeys fuel url s w) as [q H].
  eapply obeys_forall; [|exact H]. intros q0 e Ha p Hp. exact (allowed_percent _ _ _ _ _ Ha Hp).
Qed.

(** X12: a run of [performHttpFirmwareUpdate] requests the restart
    exactly when it returns true, and the restart is the last call it
    makes. *)
Theorem restart_iff_success (fuel : nat) (url : string) s w :
  match performHttpFirmwareUpdate E http_only fuel url s w with
  | Done b _ _ l =>
      existsb is_restart l = b /\
      forall pre e post,
        l = (pre ++ e :: post)%list -> is_restart e = true -> post = []
  | Unfinished _ _ l => existsb is_restart l = false
  end.
Proof.
  pose proof (install_proto E http_only url fuel s w) as H. unfold wp in H.
  destruct (performHttpFirmwareUpdate E http_only fuel url s w)
    as [b s' w' l|s' w' l].
  - split.
    + apply obeys_restarted in H. cbn in H. rewrite <- H. now destruct b.
    + intros pre e post -> He. eapply obeys_restart_last; eassumption.
  - destruct H as [H|H]; apply obeys_restarted in H; cbn in H; now rewrite <- H.
Qed.

End CallOrder.

Section HttpOnly.

Context {W : Type} (E : Env W).

(** X11: in an HTTP-only build neither [checkForUpdate] nor
    [performHttpFirmwareUpdate] ever calls the secure client: no
    [setInsecure()], no [http.begin] on it. *)
Theorem http_only_build_never_secure (fuel : nat) (url : string) s w :
  Forall (fun e => is_secure e = false)
    (res_log (checkForUpdate E true s w)) /\
  Forall (fun e => is_secure e = false)
    (res_log (performHttpFirmwareUpdate E true fuel url s w)).
Proof.
  split.
  - destruct (checkForUpdate_obeys E true s w) as [q H].
    eapply obeys_forall; [|exact H]. intros q0 e. apply allowed_http_only.
  - destruct (install_obeys E true fuel url s w) as [q H].
    eapply obeys_forall; [|exact H]. intros q0 e. apply allowed_http_only.
Qed.

End HttpOnly.

(** ** The composition of the check and the installation *)


Section Composition.

Context {W : Type} (E : Env W) (http_only : bool).



(** X14: [downloadAndInstall] is [performHttpFirmwareUpdate]: the test
    for the empty URL of lines 162 to 165 is the one of lines 247 to 250,
    with the same error and text, so the two give the same result, the
    same session and the same calls on every URL. *)
Theorem downloadAndInstall_is_install (fuel : nat) (url : string) s w :
  downloadAndInstall E http_only fuel url s w =
  performHttpFirmwareUpdate E http_only fuel url s w.
Proof.
  unfold downloadAndInstall, performHttpFirmwareUpdate.
  destruct (isEmpty url); reflexivity.
Qed.

End Composition.



(** ** The calls of [Update.begin] *)

Lemma flash_begins_cons (e : Entry) (l : list Entry) :
  flash_begins (e :: l) =
  ((if is_update_begin e then 1 else 0) + flash_begins l)%nat.
Proof.
  unfold flash_begins. cbn [List.filter]. destruct (is_update_begin e); reflexivity.
Qed.

Lemma flash_begins_app (l1 l2 : list Entry) :
  flash_begins (l1 ++ l2) = (flash_begins l1 + flash_begins l2)%nat.
Proof. unfold flash_begins. now rewrite List.filter_app, List.length_app. Qed.

Lemma flash_begins_nil : flash_begins [] = 0%nat.
Proof. reflexivity. Qed.

Ltac count_begins :=
  repeat first [ rewrite flash_begins_app | rewrite flash_begins_cons
               | rewrite flash_begins_nil
               | rewrite attempts_app | rewrite attempts_cons
               | rewrite attempts_nil ];
  cbn [is_begin is_update_begin].

Section FlashBegins.

Context {W : Type} (E : Env W) (http_only : bool).

Lemma begin_loop_begins (n : nat) (beginRetries size : Z) s w :
  wp (begin_loop E n beginRetries size)
     (fun _ _ _ l => (flash_begins l <= n)%nat /\ attempts l = 0%nat)
     (fun _ _ _ => False) s w.
Proof.
  revert beginRetries s w.
  induction n as [|n IH]; intros beginRetries s w; cbn [begin_loop].
  - wp_run E. split; [apply Nat.le_refl | reflexivity].
  - wp_run E.
    all: try (eapply wp_mono; [apply IH| |]; cbv beta; intros;
              try contradiction).
    all: repeat match goal with H : _ /\ _ |- _ => destruct H end.
    all: count_begins; lia.
Qed.

Lemma copy_loop_begins (fuel : nat) (hasCL : bool) (cl totalRead : Z) s w :
  wp (copy_loop E fuel hasCL cl totalRead)
     (fun _ _ _ l => flash_begins l = 0%nat /\ attempts l = 0%nat)
     (fun _ _ l => flash_begins l = 0%nat /\ attempts l = 0%nat) s w.
Proof.
  revert totalRead s w. induction fuel as [|fuel IH]; intros totalRead s w.
  - apply wp_out_of_fuel. split; reflexivity.
  - cbn [copy_loop]. unfold short_write_exit, reportProgress.
    wp_run E.
    all: try (eapply wp_mono; [apply IH| |]; cbv beta; intros).
    all: repeat match goal with H : _ /\ _ |- _ => destruct H end.
    all: count_begins; lia.
Qed.

Lemma conclude_begins (hasCL : bool) (cl totalRead : Z) s w :
  wp (conclude E hasCL cl totalRead)
     (fun _ _ _ l => flash_begins l = 0%nat /\ attempts l = 0%nat)
     (fun _ _ _ => False) s w.
Proof.
  unfold conclude, reportProgress. wp_run E. all: count_begins; lia.
Qed.

Lemma download_begins (k : nat) s w :
  wp (download E k)
     (fun _ _ _ l => (flash_begins l <= 5)%nat /\ attempts l = 0%nat)
     (fun _ _ l => (flash_begins l <= 5)%nat /\ attempts l = 0%nat) s w.
Proof.
  unfold download, reportProgress. wp_run E.
  all: eapply wp_mono; [apply begin_loop_begins| |]; cbv beta;
       [intros | intros; contradiction].
  all: wp_run E.
  all: try (eapply wp_mono; [apply copy_loop_begins| |]; cbv beta; intros).
  all: wp_run E.
  all: try (eapply wp_mono; [apply conclude_begins| |]; cbv beta;
            [intros | intros; contradiction]).
  all: repeat match goal with H : _ /\ _ |- _ => destruct H end.
  all: unfold MAX_BEGIN_RETRIES in *; count_begins; lia.
Qed.

Lemma attempt_begins (k : nat) (url : string) s w :
  wp (attempt E http_only k url)
     (fun _ _ _ l => (flash_begins l <= 5 * attempts l)%nat)
     (fun _ _ l => (flash_begins l <= 5 * attempts l)%nat) s w.
Proof.
  unfold attempt. wp_run E.
  all: try (eapply wp_mono; [apply download_begins| |]; cbv beta; intros).
  all: repeat match goal with H : _ /\ _ |- _ => destruct H end.
  all: count_begins; lia.
Qed.

Lemma retry_loop_begins (k fuel : nat) (url : string) (retryAttempt : Z) s w :
  wp (retry_loop E http_only k fuel url retryAttempt)
     (fun _ _ _ l => (flash_begins l <= 5 * attempts l)%nat)
     (fun _ _ l => (flash_begins l <= 5 * attempts l)%nat) s w.
Proof.
  revert retryAttempt s w.
  induction fuel as [|fuel IH]; intros retryAttempt s w.
  - apply wp_out_of_fuel. cbn. lia.
  - cbn [retry_loop]. wp_run E.
    all: try (eapply wp_mono; [apply attempt_begins| |]; cbv beta; intros;
              wp_run E).
    all: try (eapply wp_mono; [apply IH| |]; cbv beta; intros).
    all: count_begins; lia.
Qed.

(** X15: [Update.begin] is tried at most five times for each connection
    begun: in every run of [performHttpFirmwareUpdate], and at every
    point of it, the calls of [Update.begin] are at most five times the
    calls of [http.begin]. *)
Theorem flash_begins_per_attempt (fuel : nat) (url : string) s w :
  (flash_begins (res_log (performHttpFirmwareUpdate E http_only fuel url s w))
   <= 5 * attempts (res_log (performHttpFirmwareUpdate E http_only fuel url s w)))%nat.
Proof.
  assert (wp (performHttpFirmwareUpdate E http_only fuel url)
            (fun _ _ _ l => (flash_begins l <= 5 * attempts l)%nat)
            (fun _ _ l => (flash_begins l <= 5 * attempts l)%nat) s w) as H.
  { unfold performHttpFirmwareUpdate. wp_run E.
    all: try (eapply wp_mono; [apply retry_loop_begins| |]; cbv beta; intros;
              wp_run E).
    all: count_begins; lia. }
  unfold wp in H.
  destruct (performHttpFirmwareUpdate E http_only fuel url s w);
    cbn [res_log]; exact H.
Qed.

End FlashBegins.

(** ** The bytes handed to the flash *)

Lemma written_app l1 l2 : written (l1 ++ l2) = written l1 + written l2.
Proof. induction l1 as [|e l1 IH]; cbn [app written]; lia. Qed.

Lemma written_cons e l : written (e :: l) = write_len e + written l.
Proof. reflexivity. Qed.

Lemma written_nil : written [] = 0.
Proof. reflexivity. Qed.

Lemma to_size_small (x : Z) : 0 <= x < 4294967296 -> to_size x = x.
Proof. intros H. unfold to_size. now apply Z.mod_small. Qed.

(** Without a call of [Update.begin], a log adds its writes to the
    transaction it finds. *)
Lemma fold_no_begin (l : list Entry) :
  forall st, flash_begins l = 0%nat ->
             fold_left flash_step l st = (fst st, snd st + written l).
Proof.
  induction l as [|e l IH]; intros [a b]; cbn [fold_left written fst snd].
  - intros _. f_equal. lia.
  - rewrite flash_begins_cons. intros H.
    destruct e as [T x r|]; [destruct x|]; cbn [is_update_begin] in H;
      try discriminate; cbn [flash_step write_len];
      rewrite IH by lia; cbn [fst snd]; f_equal; lia.
Qed.

Lemma complete_app_r (l1 l2 : list Entry) : complete l2 -> complete (l1 ++ l2).
Proof. intros H st. rewrite fold_left_app. apply H. Qed.

Lemma complete_cons (e : Entry) (l : list Entry) : complete l -> complete (e :: l).
Proof. intros H st. cbn [fold_left]. apply H. Qed.

Lemma complete_app_l (l1 l2 : list Entry) :
  complete l1 -> flash_begins l2 = 0%nat -> written l2 = 0 -> complete (l1 ++ l2).
Proof.
  intros H Hb Hw st. rewrite fold_left_app, (fold_no_begin l2 _ Hb), Hw.
  cbn [fst snd]. rewrite Z.add_0_r. apply H.
Qed.

Lemma complete_from_begin (size : Z) (pre rest : list Entry) :
  (forall st, fold_left flash_step pre st = (size, 0)) ->
  flash_begins rest = 0%nat ->
  0 < size ->
  (size <> UPDATE_SIZE_UNKNOWN -> written rest = size) ->
  complete (pre ++ rest).
Proof.
  intros Hpre Hb Hs Hw st.
  rewrite fold_left_app, Hpre, (fold_no_begin rest _ Hb). cbn [fst snd].
  split; [exact Hs|]. intros Hk. rewrite (Hw Hk). lia.
Qed.

Lemma wp_conj {W A} (f : M W A)
    (Q1 Q2 : A -> Session -> W -> list Entry -> Prop)
    (T1 T2 : Session -> W -> list Entry -> Prop) s w :
  wp f Q1 T1 s w -> wp f Q2 T2 s w ->
  wp f (fun a s' w' l => Q1 a s' w' l /\ Q2 a s' w' l)
       (fun s' w' l => T1 s' w' l /\ T2 s' w' l) s w.
Proof. unfold wp. destruct (f s w); auto. Qed.

Ltac count_written :=
  repeat first [ rewrite written_app | rewrite written_cons
               | rewrite written_nil ];
  cbn [write_len].

Section Transaction.

Context {W : Type} (E : Env W) (http_only : bool).

Lemma copy_loop_written (fuel : nat) (hasCL : bool) (cl totalRead : Z) s w :
  (hasCL = true -> 0 < cl <= INT_MAX /\ 0 <= totalRead < cl) ->
  wp (copy_loop E fuel hasCL cl totalRead)
     (fun x _ _ l =>
        hasCL = true -> forall t, x = CopyEnded t -> t = totalRead + written l)
     (fun _ _ _ => True) s w.
Proof.
  revert totalRead s w. induction fuel as [|fuel IH]; intros totalRead s w Hb.
  - apply wp_out_of_fuel. exact I.
  - cbn [copy_loop]. unfold short_write_exit, reportProgress.
    wp_run E.
    all: try (eapply wp_mono; [apply IH; intros Hh| |]; cbv beta; intros).
    all: try exact I.
    all: flip_tests.
    all: repeat match goal with
           | H : _ && _ = false |- _ => cbn [andb] in H
           | H : (_ <=? _) = false |- _ => apply Z.leb_gt in H
           | H : (_ <=? _) = true |- _ => apply Z.leb_le in H
           end.
    all: try discriminate.
    all: try (specialize (Hb eq_refl)).
    all: try match goal with
           | H : to_int ?r > 0 |- _ => idtac
           | H : 0 < to_int ?r |- _ =>
               pose proof (to_int_range r)
           end.
    all: unfold INT_MIN, INT_MAX in *.
    all: repeat match goal with
           | |- context [to_size ?x] =>
               rewrite (to_size_small x) in * by lia
           | H : context [to_size ?x] |- _ =>
               rewrite (to_size_small x) in * by lia
           end.
    all: try (intros; subst).
    all: try match goal with
           | H : CopyEnded _ = CopyEnded _ |- _ => injection H as <-
           end.
    all: try match goal with
           | H : true = true -> _ |- _ => specialize (H eq_refl)
           end.
    all: try match goal with
           | H : forall t, ?a = CopyEnded t -> _, H' : ?a = CopyEnded _ |- _ =>
               specialize (H _ H')
           end.
    all: try match goal with
           | H : forall t, CopyEnded ?x = CopyEnded t -> _ |- _ =>
               specialize (H _ eq_refl)
           end.
    all: count_written; lia.
Qed.

Lemma begin_loop_opens (n : nat) (beginRetries size : Z) s w :
  wp (begin_loop E n beginRetries size)
     (fun ok _ _ l =>
        ok = true -> forall st, fold_left flash_step l st = (size, 0))
     (fun _ _ _ => False) s w.
Proof.
  revert beginRetries s w.
  induction n as [|n IH]; intros beginRetries s w; cbn [begin_loop].
  - wp_run E. discriminate.
  - wp_run E.
    all: try (eapply wp_mono; [apply IH| |]; cbv beta; intros;
              try contradiction).
    all: subst_answers; intros; cbn [fold_left flash_step]; auto.
Qed.

Lemma conclude_written (hasCL : bool) (cl totalRead : Z) s w :
  wp (conclude E hasCL cl totalRead)
     (fun x _ _ l =>
        written l = 0 /\
        (x = Succeeded -> hasCL = true -> totalRead = to_size cl))
     (fun _ _ _ => False) s w.
Proof.
  unfold conclude, reportProgress. wp_run E.
  all: flip_tests; split; [reflexivity|]; try discriminate.
  all: intros _ ->; cbn [andb] in *; flip_tests.
  all: match goal with H : (_ =? _) = true |- _ => apply Z.eqb_eq in H end.
  all: assumption.
Qed.

Lemma download_complete (k : nat) s w :
  wp (download E k)
     (fun x _ _ l => x = Succeeded -> complete l) (fun _ _ _ => True) s w.
Proof.
  unfold download, reportProgress. wp_run E.
  all: eapply wp_mono; [apply begin_loop_opens| |]; cbv beta;
       [intros | intros; contradiction].
  all: wp_run E.
  all: try discriminate.
  all: eapply wp_mono;
       [ apply wp_conj;
         [ apply copy_loop_written; intros Hh; apply Z.ltb_lt in Hh;
           pose proof (to_int_range r); lia
         | apply copy_loop_begins ]
       | | ]; cbv beta; [intros | intros; exact I].
  all: wp_run E; try discriminate.
  all: eapply wp_mono;
       [ apply wp_conj; [apply conclude_written | apply conclude_begins]
       | | ]; cbv beta; [intros | intros; tauto].
  all: repeat match goal with H : _ /\ _ |- _ => destruct H end.
  all: flip_tests; subst_answers.
  all: match goal with
       | H : true = true -> forall st, fold_left flash_step ?l st = (?size, 0)
         |- complete (?e :: ?l ++ ?rest) =>
           apply (complete_from_begin size (e :: l) rest);
           [ intros st; cbn [fold_left flash_step]; apply (H eq_refl)
           | count_begins; lia
           | apply begin_size_bound
           | ]
       end.
  all: destruct (0 <? to_int r) eqn:Hcl;
       [ intros _ | intros Hk; exfalso; apply Hk; reflexivity ].
  all: count_written.
  all: repeat match goal with
         | H : ?a = ?a -> _ |- _ => specialize (H eq_refl)
         | H : ?a = Succeeded -> _, H' : ?a = Succeeded |- _ =>
             specialize (H H')
         | H : forall t, CopyEnded ?x = CopyEnded t -> _ |- _ =>
             specialize (H _ eq_refl)
         end.
  all: lia.
Qed.

Lemma attempt_complete (k : nat) (url : string) s w :
  wp (attempt E http_only k url)
     (fun x _ _ l => x = Succeeded -> complete l) (fun _ _ _ => True) s w.
Proof.
  unfold attempt. wp_run E.
  all: try discriminate.
  all: eapply wp_mono; [apply download_complete| |]; cbv beta;
       [intros | intros; exact I].
  all: intros Hs; repeat apply complete_cons; auto.
Qed.

Lemma retry_loop_complete (k fuel : nat) (url : string) (retryAttempt : Z) s w :
  wp (retry_loop E http_only k fuel url retryAttempt)
     (fun x _ _ l => x <> Returned true /\ (x = LoopEnded true -> complete l))
     (fun _ _ _ => True) s w.
Proof.
  revert retryAttempt s w.
  induction fuel as [|fuel IH]; intros retryAttempt s w.
  - apply wp_out_of_fuel. exact I.
  - cbn [retry_loop]. wp_run E.
    all: try (split; discriminate).
    all: eapply wp_mono; [apply attempt_complete| |]; cbv beta;
         [intros | intros; exact I].
    all: wp_run E; try (split; discriminate).
    all: try (eapply wp_mono; [apply IH| |]; cbv beta;
              [intros | intros; exact I]).
    all: repeat match goal with H : _ /\ _ |- _ => destruct H end.
    all: split; [try assumption; try discriminate|].
    all: intros Hs; repeat apply complete_cons; rewrite ?app_nil_r.
    all: first [ apply complete_app_r; auto | auto ].
Qed.

(** X16: when [performHttpFirmwareUpdate] returns true, a flash
    transaction has been begun, and when the last one was begun with a
    known size (the content length), the counts handed to [Update.write]
    since it was begun add up to exactly that size: no image is
    finalised short of or beyond its announced length. *)
Theorem flashed_image_is_complete (fuel : nat) (url : string)
    (s s' : Session) (w w' : W) (l : list Entry) :
  performHttpFirmwareUpdate E http_only fuel url s w = Done true s' w' l ->
  0 < fst (transaction l) /\
  (fst (transaction l) <> UPDATE_SIZE_UNKNOWN ->
   snd (transaction l) = fst (transaction l)).
Proof.
  intros Heq.
  assert (wp (performHttpFirmwareUpdate E http_only fuel url)
            (fun b _ _ l => b = true -> complete l) (fun _ _ _ => True) s w)
    as H.
  { unfold performHttpFirmwareUpdate. wp_run E.
    all: try discriminate.
    eapply wp_mono; [apply retry_loop_complete| |]; cbv beta;
      [intros | intros; exact I].
    wp_run E; try discriminate.
    - intros ->. subst. tauto.
    - intros _. apply complete_app_l; [subst; tauto|reflexivity|reflexivity]. }
  unfold wp in H. rewrite Heq in H.
  exact (H eq_refl (0, 0)).
Qed.

End Transaction.

(** ** The counters after a success *)

Section Finished.

Context {W : Type} (E : Env W) (http_only : bool).

Lemma copy_loop_total (fuel : nat) (hasCL : bool) (cl totalRead : Z) s w :
  wp (copy_loop E fuel hasCL cl totalRead)
     (fun x s' _ _ => _totalBytes s' = _totalBytes s \/ x = CopyFatal)
     (fun _ _ _ => True) s w.
Proof.
  revert totalRead s w. induction fuel as [|fuel IH]; intros totalRead s w.
  - apply wp_out_of_fuel. exact I.
  - cbn [copy_loop]. unfold short_write_exit, reportProgress.
    wp_run E.
    all: try (eapply wp_mono; [apply IH| |]; cbv beta; intros).
    all: try exact I.
    all: fields; auto.
Qed.

Lemma begin_loop_total (n : nat) (beginRetries size : Z) s w :
  wp (begin_loop E n beginRetries size)
     (fun _ s' _ _ => _totalBytes s' = _totalBytes s)
     (fun _ _ _ => False) s w.
Proof.
  revert beginRetries s w.
  induction n as [|n IH]; intros beginRetries s w; cbn [begin_loop].
  - wp_run E. reflexivity.
  - wp_run E.
    all: try (eapply wp_mono; [apply IH| |]; cbv beta; intros;
              try contradiction).
    all: fields; auto.
Qed.

Lemma conclude_finished (hasCL : bool) (cl totalRead : Z) s w :
  wp (conclude E hasCL cl totalRead)
     (fun x s' _ _ =>
        x = Succeeded ->
        _currentPercent s' = 100 /\ _currentBytesRead s' = totalRead /\
        _totalBytes s' = _totalBytes s /\
        (hasCL = true -> totalRead = to_size cl))
     (fun _ _ _ => False) s w.
Proof.
  unfold conclude, reportProgress. wp_run E.
  all: try discriminate.
  all: intros _; fields; repeat split; try reflexivity.
  all: flip_tests; intros ->; cbn [andb] in *; flip_tests.
  all: match goal with H : (_ =? _) = true |- _ => apply Z.eqb_eq in H end.
  all: assumption.
Qed.

Lemma download_finished (k : nat) s w :
  wp (download E k)
     (fun x s' _ _ => x = Succeeded -> finished s') (fun _ _ _ => True) s w.
Proof.
  unfold download, reportProgress. wp_run E.
  all: eapply wp_mono; [apply begin_loop_total| |]; cbv beta;
       [intros | intros; contradiction].
  all: wp_run E.
  all: try discriminate.
  all: eapply wp_mono; [apply copy_loop_total| |]; cbv beta;
       [intros | intros; exact I].
  all: wp_run E; try discriminate.
  all: eapply wp_mono; [apply conclude_finished| |]; cbv beta;
       [intros | intros; contradiction].
  all: repeat match goal with
         | H : ?a = Succeeded -> _, H' : ?a = Succeeded |- _ =>
             specialize (H H')
         | H : _ /\ _ |- _ => destruct H
         | H : _ \/ _ |- _ => destruct H; [|congruence]
         end.
  all: fields; unfold finished; split; [assumption|].
  all: destruct (0 <? to_int r) eqn:Hcl; intros Hpos; try lia.
  all: repeat match goal with
         | H : true = true -> _ |- _ => specialize (H eq_refl)
         end.
  all: congruence.
Qed.

Lemma attempt_finished (k : nat) (url : string) s w :
  wp (attempt E http_only k url)
     (fun x s' _ _ => x = Succeeded -> finished s') (fun _ _ _ => True) s w.
Proof.
  unfold attempt. wp_run E.
  all: try discriminate.
  all: eapply wp_mono; [apply download_finished| |]; cbv beta;
       [intros | intros; exact I].
  all: auto.
Qed.

Lemma retry_loop_finished (k fuel : nat) (url : string) (retryAttempt : Z) s w :
  wp (retry_loop E http_only k fuel url retryAttempt)
     (fun x s' _ _ => x <> Returned true /\ (x = LoopEnded true -> finished s'))
     (fun _ _ _ => True) s w.
Proof.
  revert retryAttempt s w.
  induction fuel as [|fuel IH]; intros retryAttempt s w.
  - apply wp_out_of_fuel. exact I.
  - cbn [retry_loop]. wp_run E.
    all: try (split; discriminate).
    all: eapply wp_mono; [apply attempt_finished| |]; cbv beta;
         [intros | intros; exact I].
    all: wp_run E; try (split; discriminate).
    all: try (eapply wp_mono; [apply IH| |]; cbv beta;
              [intros | intros; exact I]).
    all: repeat match goal with H : _ /\ _ |- _ => destruct H end.
    all: split; [try assumption; try discriminate|]; auto.
Qed.

(** X17: when [performHttpFirmwareUpdate] returns true the recorded
    percentage is 100 and, with a known total, the recorded byte count
    is the total; [getProgress] then hands out exactly these three
    values, and returns true when [isUpdating] is still set or the total
    is known. *)
Theorem success_leaves_full_progress (fuel : nat) (url : string)
    (s s' : Session) (w w' : W) (l : list Entry) :
  performHttpFirmwareUpdate E http_only fuel url s w = Done true s' w' l ->
  finished s' /\
  forall out,
    getProgress s' out =
    (_isUpdating s' || (0 <? _totalBytes s'),
     (_currentBytesRead s', _totalBytes s', 100)).
Proof.
  intros Heq.
  assert (wp (performHttpFirmwareUpdate E http_only fuel url)
            (fun b s' _ _ => b = true -> finished s') (fun _ _ _ => True) s w)
    as H.
  { unfold performHttpFirmwareUpdate. wp_run E.
    all: try discriminate.
    eapply wp_mono; [apply retry_loop_finished| |]; cbv beta;
      [intros | intros; exact I].
    wp_run E; try discriminate.
    - intros ->. subst. tauto.
    - intros _. fields. subst. tauto. }
  unfold wp in H. rewrite Heq in H. specialize (H eq_refl).
  split; [exact H|]. intros out. destruct H as [Hp _].
  unfold getProgress. rewrite Hp. cbn [Z.eqb andb Z.leb Z.compare].
  rewrite andb_false_r. reflexivity.
Qed.

End Finished.

(** ** What an installation reads of the session *)

Lemma install_reset_eq (s1 s2 : Session) :
  same_install_input s1 s2 -> install_reset s1 = install_reset s2.
Proof.
  destruct s1, s2. unfold same_install_input, install_reset. cbn.
  intros (-> & -> & -> & -> & -> & -> & -> & -> & -> & -> & -> & -> & ->).
  reflexivity.
Qed.

Section InstallForgets.

Context {W : Type} (E : Env W) (http_only : bool).

(** X18: an installation that passes the entry checks starts from
    scratch: lines 260 to 263 overwrite [isUpdating], the abort flag, the
    error code and the error text, so two sessions that differ in these
    only give the same run, with the same calls, the same result and the
    same session at the end.  An [abortUpdate()] issued before the
    installation begins is lost. *)
Theorem install_forgets (fuel : nat) (url : string) (s1 s2 : Session) (w : W) :
  url_accepted http_only url = true ->
  same_install_input s1 s2 ->
  performHttpFirmwareUpdate E http_only fuel url s1 w =
  performHttpFirmwareUpdate E http_only fuel url s2 w.
Proof.
  intros [H1 H2]%url_accepted_inv Hin.
  apply install_reset_eq in Hin.
  unfold performHttpFirmwareUpdate. rewrite H1, H2.
  cbv beta iota delta [bind modify].
  change (set_lastErrorDetail "" (set_lastError NO_ERROR
            (set_abortFlag false (set_isUpdating true s1))))
    with (install_reset s1).
  change (set_lastErrorDetail "" (set_lastError NO_ERROR
            (set_abortFlag false (set_isUpdating true s2))))
    with (install_reset s2).
  rewrite Hin. reflexivity.
Qed.

End InstallForgets.

Lemma install_forgets_witness :
  url_accepted true "http://x/fw.bin" = true /\
  same_install_input
    (abortUpdate (setError FLASH_FAILED (Some "old") a_session)) a_session /\
  performHttpFirmwareUpdate (sim good_server) true 5 "http://x/fw.bin"
    (abortUpdate (setError FLASH_FAILED (Some "old") a_session)) 0%nat =
  performHttpFirmwareUpdate (sim good_server) true 5 "http://x/fw.bin"
    a_session 0%nat.
Proof.
  assert (url_accepted true "http://x/fw.bin" = true) as H1 by reflexivity.
  assert (same_install_input
            (abortUpdate (setError FLASH_FAILED (Some "old") a_session))
            a_session) as H2 by (repeat split).
  split; [exact H1|]. split; [exact H2|].
  exact (install_forgets (sim good_server) true 5 "http://x/fw.bin" _ _ 0%nat
           H1 H2).
Defined.

(** ** Runs of the further properties against the scripted world *)

Lemma flashed_image_is_complete_witness :
  exists s' w' l,
    performHttpFirmwareUpdate (sim good_server) true 5 "http://x/fw.bin"
      a_session 0%nat = Done true s' w' l /\
    0 < fst (transaction l) /\
    (fst (transaction l) <> UPDATE_SIZE_UNKNOWN ->
     snd (transaction l) = fst (transaction l)).
Proof.
  assert (exists s' w' l,
             performHttpFirmwareUpdate (sim good_server) true 5
               "http://x/fw.bin" a_session 0%nat = Done true s' w' l)
    as (s' & w' & l & Heq) by (vm_compute; eauto).
  exists s', w', l. split; [exact Heq|].
  exact (flashed_image_is_complete (sim good_server) true 5 "http://x/fw.bin"
           a_session s' 0%nat w' l Heq).
Defined.

Lemma success_leaves_full_progress_witness :
  exists s' w' l,
    performHttpFirmwareUpdate (sim good_server) true 5 "http://x/fw.bin"
      a_session 0%nat = Done true s' w' l /\
    finished s' /\
    getProgress s' (7, 8, 9) =
    (_isUpdating s' || (0 <? _totalBytes s'),
     (_currentBytesRead s', _totalBytes s', 100)).
Proof.
  assert (exists s' w' l,
             performHttpFirmwareUpdate (sim good_server) true 5
               "http://x/fw.bin" a_session 0%nat = Done true s' w' l)
    as (s' & w' & l & Heq) by (vm_compute; eauto).
  exists s', w', l. split; [exact Heq|].
  destruct (success_leaves_full_progress (sim good_server) true 5
              "http://x/fw.bin" a_session s' 0%nat w' l Heq) as [H1 H2].
  split; [exact H1 | exact (H2 (7, 8, 9))].
Defined.

Lemma attempts_bounded_witness :
  to_u8 (_retryCount (setRetryCount 3 a_session)) < 255 /\
  (attempts (res_log (performHttpFirmwareUpdate (sim dead_server) true 10
                        "http://x/fw.bin" (setRetryCount 3 a_session) 0%nat))
   <= 4)%nat.
Proof.
  assert (to_u8 (_retryCount (setRetryCount 3 a_session)) < 255) as H
    by reflexivity.
  split; [exact H|].
  exact (attempts_bounded (sim dead_server) true 10 "http://x/fw.bin"
           (setRetryCount 3 a_session) 0%nat H).
Defined.
